(** * exwave, [source/linearized_euler.cc]: the simulation driver,
      its mesh adaptation, its stability monitor and the CFL search.

    The file is a shallow embedding of the driver code.  C++ [double] is the
    kernel's binary64 [float], so every comparison and every arithmetic
    operation below rounds, overflows and treats NaN as the compiled program
    does.  The finite-element library (deal.II), MPI and libm are taken as
    parameters, gathered in the record [External]. *)

From Stdlib Require Import ZArith Lia Bool List String Floats.
From Stdlib Require Uint63.
From Stdlib Require DecimalString DecimalZ.
Import ListNotations.
Set Warnings "-inexact-float,-implicit-create-rewrite-hint-db".

(* ================================================================= *)
(** ** Numbers *)

Definition double : Set := float.

(** The C++ comparison [a > b]. *)
Definition gtb (a b : double) : bool := PrimFloat.ltb b a.

Notation "a >? b" := (gtb a b) (at level 70, no associativity) : float_scope.

(** [std::numeric_limits<double>::max()]. *)
Definition DBL_MAX : double := 0x1.fffffffffffffp1023%float.

(** Conversion of an integer to [double], as in [std::pow(fe_degree, 1.5)]. *)
Definition double_of_Z (z : Z) : double :=
  match z with
  | Z0 => 0%float
  | Zpos _ => PrimFloat.of_uint63 (Uint63.of_Z z)
  | Zneg _ => PrimFloat.opp (PrimFloat.of_uint63 (Uint63.of_Z (Z.opp z)))
  end.

(* ================================================================= *)
(** ** Failure *)

(** What the driver itself raises: [AssertThrow (..., ExcNotImplemented ())]. *)
Inductive Exception : Set :=
| ExcNotImplemented.

(** How a call ends: it returns, it raises a C++ exception, or it has no
    result at all.  [Undefined] stands for the two ways in which the driver
    leaves the language: an operation whose behaviour C++ does not define
    (the remainder of a division by zero, the use of a null pointer) and the
    [abort ()] of a failed [Assert].  No handler sees it. *)
Inductive Result (A : Type) : Type :=
| Ok (a : A)
| Throw (e : Exception)
| Undefined.

Arguments Ok {A} a.
Arguments Throw {A} e.
Arguments Undefined {A}.

Definition bind {A B : Type} (r : Result A) (k : A -> Result B) : Result B :=
  match r with
  | Ok a => k a
  | Throw e => Throw e
  | Undefined => Undefined
  end.

Notation "x <- r ;; k" := (bind r (fun x => k))
  (at level 61, r at next level, right associativity).

(* ================================================================= *)
(** ** Parameters *)

Inductive IntegratorType : Set :=
| expleuler | classrk4 | lsrk45reg2 | lsrk33reg2
| lsrk45reg3 | lsrk59reg2 | ssprk
| other_integrator.

(** The fields of [Parameters] (declared in [include/parameters.h]) that the
    driver reads.  Counters that are [unsigned int] in the code are [nat]. *)
Record Parameters : Set := mkParameters {
  dimension : Z;
  fe_degree : Z;
  integ_type : IntegratorType;
  cfl_number : double;
  cfl_stability_analysis : bool;
  final_time : double;
  output_every_time : double;
  max_time_steps : nat;
  n_refinements : Z;
  n_adaptive_refinements : nat;
  adaptive_refinement_interval : nat;
  initial_cases : Z;
  membrane_modes : Z
}.

(** [parameters_in.cfl_number = c]. *)
Definition set_cfl_number (c : double) (p : Parameters) : Parameters :=
  {| dimension := dimension p;
     fe_degree := fe_degree p;
     integ_type := integ_type p;
     cfl_number := c;
     cfl_stability_analysis := cfl_stability_analysis p;
     final_time := final_time p;
     output_every_time := output_every_time p;
     max_time_steps := max_time_steps p;
     n_refinements := n_refinements p;
     n_adaptive_refinements := n_adaptive_refinements p;
     adaptive_refinement_interval := adaptive_refinement_interval p;
     initial_cases := initial_cases p;
     membrane_modes := membrane_modes p |}.

(* ================================================================= *)
(** ** TimeControl *)

(** Modelled from the spec: [HDG_WE::TimeControl] lives in
    [include/time_integrators.h], which is not among the sources.  The record
    and its operations follow section 4.1 of the specification: the clock,
    the step counter, the step size, and [done()] true once
    [current_time >= final_time] or [step_number >= max_steps]. *)
Record TimeControl : Set := mkTimeControl {
  tc_time : double;
  tc_step_number : nat;
  tc_time_step : double;
  tc_final_time : double;
  tc_output_every : double;
  tc_max_steps : nat
}.

Definition tc_default : TimeControl :=
  mkTimeControl 0%float 0 0%float 0%float 0%float 0.

Definition setup (final_t output_every dt : double) (max_steps : nat) : TimeControl :=
  mkTimeControl 0%float 0 dt final_t output_every max_steps.

Definition advance_time_step (tc : TimeControl) : TimeControl :=
  mkTimeControl (tc_time tc + tc_time_step tc)%float (S (tc_step_number tc))
    (tc_time_step tc) (tc_final_time tc) (tc_output_every tc) (tc_max_steps tc).

Definition set_time_step (dt : double) (tc : TimeControl) : TimeControl :=
  mkTimeControl (tc_time tc) (tc_step_number tc) dt
    (tc_final_time tc) (tc_output_every tc) (tc_max_steps tc).

Definition set_time (t : double) (tc : TimeControl) : TimeControl :=
  mkTimeControl t (tc_step_number tc) (tc_time_step tc)
    (tc_final_time tc) (tc_output_every tc) (tc_max_steps tc).

Definition done (tc : TimeControl) : bool :=
  (tc_final_time tc <=? tc_time tc)%float
  || (tc_max_steps tc <=? tc_step_number tc)%nat.

(* ================================================================= *)
(** ** The mesh as the driver sees it *)

(** An active cell: what [adapt_mesh] and [compute_time_step_size] read and
    write through the cell accessor. *)
Record Cell : Set := mkCell {
  level : Z;
  refine_flag_set : bool;
  coarsen_flag_set : bool;
  is_locally_owned : bool;
  active_cell_index : nat;
  minimum_vertex_distance : double
}.

Definition clear_refine_flag (c : Cell) : Cell :=
  mkCell (level c) false (coarsen_flag_set c) (is_locally_owned c)
    (active_cell_index c) (minimum_vertex_distance c).

Definition clear_coarsen_flag (c : Cell) : Cell :=
  mkCell (level c) (refine_flag_set c) false (is_locally_owned c)
    (active_cell_index c) (minimum_vertex_distance c).

Definition set_coarsen_flag (c : Cell) : Cell :=
  mkCell (level c) (refine_flag_set c) true (is_locally_owned c)
    (active_cell_index c) (minimum_vertex_distance c).

(** The active cells, in the order [begin_active() .. end()] visits them. *)
Definition Triangulation : Set := list Cell.

(** [error_per_cell(i)]: the vector has one entry per active cell. *)
Definition vector_at (v : list double) (i : nat) : double := nth i v 0%float.

(* ================================================================= *)
(** ** What the driver consumes from deal.II, MPI and libm *)

Record External : Type := mkExternal {
  (** [LinearAlgebra::distributed::Vector<value_type>] *)
  Vec : Type;
  empty_vector : Vec;
  (** compile-time switch [DEAL_II_WITH_P4EST] *)
  DEAL_II_WITH_P4EST : bool;
  (** what a member without initializer holds after construction *)
  indeterminate : double;
  (** [HDG_WE::input_geometry_description] *)
  input_geometry_description : Parameters -> Triangulation;
  (** [GridRefinement::refine_and_coarsen_fixed_number] *)
  refine_and_coarsen_fixed_number :
    Triangulation -> list double -> double -> double -> Triangulation;
  prepare_coarsening_and_refinement : Triangulation -> Triangulation;
  execute_coarsening_and_refinement : Triangulation -> Triangulation;
  (** [linearized_euler_op->estimate_error (solutions, tmp_solutions, .)] *)
  estimate_error : Triangulation -> Vec -> Vec -> list double;
  (** [project_initial_field (., ExactSolution (time, ...))] *)
  project_initial_field : Parameters -> Triangulation -> double -> Vec;
  (** [integrator->perform_time_step (tmp_solutions, solutions, dt, op)]:
      the new [solutions] *)
  perform_time_step :
    IntegratorType -> Parameters -> Triangulation -> Vec -> Vec -> double -> double -> Vec;
  (** [get_matrix_free().initialize_dof_vector (.)] on the current mesh *)
  initialize_dof_vector : Triangulation -> Vec;
  (** [sol_trans.interpolate]: snapshot, mesh before, mesh after *)
  interpolate : Vec -> Triangulation -> Triangulation -> Vec;
  (** [norm_per_cell.norm_sqr ()] after [integrate_difference] of the density
      against [ZeroFunction] *)
  density_norm_sqr : Triangulation -> Vec -> double;
  (** the same against [ExactSolution (time, ...)] *)
  density_error_sqr : Parameters -> Triangulation -> Vec -> double -> double;
  (** [Vector<double>::linfty_norm] *)
  linfty_norm : list double -> double;
  (** [Utilities::MPI::sum], [min], [max] over [MPI_COMM_WORLD] *)
  mpi_sum : double -> double;
  mpi_min : double -> double;
  mpi_max : double -> double;
  (** [std::pow] *)
  pow : double -> double -> double;
  (** [TimeControl::at_tick]: the tick-index comparison of section 4.1 *)
  at_tick : TimeControl -> bool
}.

(* ================================================================= *)
(** ** The calls a run makes, in order *)

(** Ghost trace: one entry per call or member write of the source that the
    properties below speak about. *)
Inductive Event : Set :=
| Ev_make_grid
| Ev_estimate_error
| Ev_set_refinement_indicators
| Ev_adjust_flags
| Ev_prepare_coarsening_and_refinement
| Ev_copy_solutions
| Ev_prepare_solution_transfer
| Ev_execute_coarsening_and_refinement
| Ev_distribute_dofs
| Ev_set_time_step (dt : double)
| Ev_operator_setup
| Ev_initialize_dof_vector
| Ev_reinit_tmp_solutions
| Ev_interpolate
| Ev_project_initial_field
| Ev_capture_maximal_cellwise_error (v : double)
| Ev_output_results
| Ev_write_last_error (v : double)
| Ev_write_first_error (v mag : double)
| Ev_set_time (t : double)
| Ev_perform_time_step (dt : double).

Definition is_first_error_write (e : Event) : bool :=
  match e with Ev_write_first_error _ _ => true | _ => false end.

Definition is_last_error_write (e : Event) : bool :=
  match e with Ev_write_last_error _ => true | _ => false end.

Definition is_output (e : Event) : bool :=
  match e with Ev_output_results => true | _ => false end.

Definition is_capture (e : Event) : bool :=
  match e with Ev_capture_maximal_cellwise_error _ => true | _ => false end.

Definition is_set_time (e : Event) : bool :=
  match e with Ev_set_time _ => true | _ => false end.

Definition is_adjust_flags (e : Event) : bool :=
  match e with Ev_adjust_flags => true | _ => false end.

(** Calls that take the state vector [solutions] as an input. *)
Definition reads_solutions (e : Event) : bool :=
  match e with
  | Ev_estimate_error | Ev_copy_solutions | Ev_prepare_solution_transfer
  | Ev_reinit_tmp_solutions | Ev_output_results | Ev_perform_time_step _ => true
  | _ => false
  end.

Definition is_perform_time_step (e : Event) : bool :=
  match e with Ev_perform_time_step _ => true | _ => false end.

(** The calls that only [adapt_mesh] and the capture of the reference error
    make. *)
Definition is_adaptation (e : Event) : bool :=
  match e with
  | Ev_estimate_error | Ev_set_refinement_indicators | Ev_adjust_flags
  | Ev_prepare_coarsening_and_refinement | Ev_copy_solutions
  | Ev_prepare_solution_transfer | Ev_execute_coarsening_and_refinement
  | Ev_interpolate | Ev_capture_maximal_cellwise_error _ => true
  | _ => false
  end.

(** The events of the time loop and of an output evaluation. *)
Definition is_loop_event (e : Event) : bool :=
  is_perform_time_step e || is_output e || is_last_error_write e
  || is_first_error_write e || is_set_time e.

Definition count (f : Event -> bool) (l : list Event) : nat :=
  List.length (List.filter f l).

(* ================================================================= *)
(** ** Reading the trace *)

(** Events that do not concern the stability record, the reference error or
    the forced end of a run. *)
Definition quiet (e : Event) : bool :=
  negb (is_first_error_write e || is_last_error_write e || is_output e
        || is_capture e || is_set_time e).

(** The order of calls that the specification prescribes for one adaptation,
    after the flags are set: snapshot of the state vector, mesh rebuild,
    [make_dofs], interpolation, new time-step size.  A build without p4est
    copies the state vector before it hands it to the transfer object. *)
Definition adaptation_order (p4est : bool) (dt : double) : list Event :=
  [ Ev_estimate_error; Ev_set_refinement_indicators; Ev_adjust_flags;
    Ev_prepare_coarsening_and_refinement ]
  ++ (if p4est then [] else [Ev_copy_solutions])
  ++ [ Ev_prepare_solution_transfer;
       Ev_execute_coarsening_and_refinement;
       Ev_distribute_dofs; Ev_set_time_step dt; Ev_operator_setup;
       Ev_initialize_dof_vector; Ev_reinit_tmp_solutions;
       Ev_interpolate;
       Ev_set_time_step dt ].

(** The events after the mesh rebuild has begun ... *)
Fixpoint after_rebuild_begins (l : list Event) : list Event :=
  match l with
  | [] => []
  | Ev_execute_coarsening_and_refinement :: l' => l'
  | _ :: l' => after_rebuild_begins l'
  end.

(** ... and, of those, the ones before the state vector is created anew on
    the new indexing: calls in this window still see the old layout. *)
Fixpoint until_reinitialized (l : list Event) : list Event :=
  match l with
  | [] => []
  | Ev_initialize_dof_vector :: _ => []
  | e :: l' => e :: until_reinitialized l'
  end.

Definition stale_window (l : list Event) : list Event :=
  until_reinitialized (after_rebuild_begins l).

(* ================================================================= *)
(** ** LinearizedEulerProblem *)

Section Driver.

Context (E : External).

(** The data members of [LinearizedEulerProblem<dim>].  [parameters] is a
    reference to the caller's object; no member function writes through it, so
    the run sees the value it was constructed with.  [log] is the ghost trace. *)
Record Problem : Type := mkProblem {
  dim : Z;
  parameters : Parameters;
  solutions : Vec E;
  tmp_solutions : Vec E;
  time_control : TimeControl;
  triangulation : Triangulation;
  linearized_euler_op : bool;
  maximal_cellwise_error_init : double;
  last_error_val : double;
  first_error_val : double;
  first_mangnitude_val : double;
  log : list Event
}.

Definition emit (e : Event) (s : Problem) : Problem :=
  mkProblem (dim s) (parameters s) (solutions s) (tmp_solutions s)
    (time_control s) (triangulation s) (linearized_euler_op s)
    (maximal_cellwise_error_init s) (last_error_val s) (first_error_val s)
    (first_mangnitude_val s) (log s ++ [e]).

Definition with_solutions (v : Vec E) (s : Problem) : Problem :=
  mkProblem (dim s) (parameters s) v (tmp_solutions s)
    (time_control s) (triangulation s) (linearized_euler_op s)
    (maximal_cellwise_error_init s) (last_error_val s) (first_error_val s)
    (first_mangnitude_val s) (log s).

Definition with_tmp_solutions (v : Vec E) (s : Problem) : Problem :=
  mkProblem (dim s) (parameters s) (solutions s) v
    (time_control s) (triangulation s) (linearized_euler_op s)
    (maximal_cellwise_error_init s) (last_error_val s) (first_error_val s)
    (first_mangnitude_val s) (log s).

Definition with_time_control (tc : TimeControl) (s : Problem) : Problem :=
  mkProblem (dim s) (parameters s) (solutions s) (tmp_solutions s)
    tc (triangulation s) (linearized_euler_op s)
    (maximal_cellwise_error_init s) (last_error_val s) (first_error_val s)
    (first_mangnitude_val s) (log s).

Definition with_triangulation (t : Triangulation) (s : Problem) : Problem :=
  mkProblem (dim s) (parameters s) (solutions s) (tmp_solutions s)
    (time_control s) t (linearized_euler_op s)
    (maximal_cellwise_error_init s) (last_error_val s) (first_error_val s)
    (first_mangnitude_val s) (log s).

Definition with_linearized_euler_op (b : bool) (s : Problem) : Problem :=
  mkProblem (dim s) (parameters s) (solutions s) (tmp_solutions s)
    (time_control s) (triangulation s) b
    (maximal_cellwise_error_init s) (last_error_val s) (first_error_val s)
    (first_mangnitude_val s) (log s).

Definition with_maximal_cellwise_error_init (v : double) (s : Problem) : Problem :=
  mkProblem (dim s) (parameters s) (solutions s) (tmp_solutions s)
    (time_control s) (triangulation s) (linearized_euler_op s)
    v (last_error_val s) (first_error_val s)
    (first_mangnitude_val s) (log s).

Definition with_last_error_val (v : double) (s : Problem) : Problem :=
  mkProblem (dim s) (parameters s) (solutions s) (tmp_solutions s)
    (time_control s) (triangulation s) (linearized_euler_op s)
    (maximal_cellwise_error_init s) v (first_error_val s)
    (first_mangnitude_val s) (log s).

Definition with_first_error (v mag : double) (s : Problem) : Problem :=
  mkProblem (dim s) (parameters s) (solutions s) (tmp_solutions s)
    (time_control s) (triangulation s) (linearized_euler_op s)
    (maximal_cellwise_error_init s) (last_error_val s) v mag (log s).

(** The constructor: [maximal_cellwise_error_init (-1)], [first_error_val (-1.0)];
    [last_error_val] and [first_mangnitude_val] have no initializer. *)
Definition LinearizedEulerProblem (d : Z) (parameters_in : Parameters) : Problem :=
  mkProblem d parameters_in (empty_vector E) (empty_vector E) tc_default []
    false (-1)%float (indeterminate E) (-1.0)%float (indeterminate E) [].

(** [cfl_stable ()]. *)
Definition cfl_stable (s : Problem) : bool :=
  negb ((last_error_val s >? 100.0 * first_error_val s)%float
        || (last_error_val s >? 1.5 * first_mangnitude_val s)%float).

(** [compute_time_step_size (triangulation, parameters)]. *)
Definition min_cell_diameter (tria : Triangulation) : double :=
  fold_left
    (fun acc cell =>
       if is_locally_owned cell
       then if (minimum_vertex_distance cell <? acc)%float
            then minimum_vertex_distance cell else acc
       else acc)
    tria DBL_MAX.

Definition compute_time_step_size (tria : Triangulation) (p : Parameters) : double :=
  (cfl_number p * mpi_min E (min_cell_diameter tria))%float.

(** [make_grid ()]. *)
Definition make_grid (s : Problem) : Problem :=
  emit Ev_make_grid
    (with_triangulation (input_geometry_description E (parameters s)) s).

(** [make_dofs ()]. *)
Definition make_dofs (s : Problem) : Problem :=
  let s := emit Ev_distribute_dofs s in
  let dt := compute_time_step_size (triangulation s) (parameters s) in
  let s := emit (Ev_set_time_step dt)
             (with_time_control (set_time_step dt (time_control s)) s) in
  let s := emit Ev_operator_setup s in
  let s := emit Ev_initialize_dof_vector
             (with_solutions (initialize_dof_vector E (triangulation s)) s) in
  emit Ev_reinit_tmp_solutions
    (with_tmp_solutions (initialize_dof_vector E (triangulation s)) s).

(** [set_refinement_indicators (tria, error_per_cell)], both overloads. *)
Definition set_refinement_indicators
    (tria : Triangulation) (error_per_cell : list double) : Triangulation :=
  refine_and_coarsen_fixed_number E tria error_per_cell 0.1%float 0.6%float.

(** The body of the loop over the active cells in [adapt_mesh], for one cell. *)
Definition adjust_flags (min_level max_level : Z) (error_per_cell : list double)
    (max_init : double) (cell : Cell) : Cell :=
  if is_locally_owned cell then
    let cell :=
      if refine_flag_set cell && (level cell =? max_level)%Z
      then clear_refine_flag cell
      else if coarsen_flag_set cell && (level cell =? min_level)%Z
           then clear_coarsen_flag cell
           else cell in
    let cell :=
      if refine_flag_set cell
         && (vector_at error_per_cell (active_cell_index cell) <? 0.1 * max_init)%float
      then clear_refine_flag cell
      else cell in
    if (vector_at error_per_cell (active_cell_index cell) <? 0.05 * max_init)%float
    then set_coarsen_flag cell
    else cell
  else cell.

(** [error_per_cell] as [adapt_mesh] obtains it from the operator. *)
Definition error_indicators (s : Problem) : list double :=
  estimate_error E (triangulation s) (solutions s) (tmp_solutions s).

(** The cells when the loop over the active cells in [adapt_mesh] has ended:
    the flags of [set_refinement_indicators], adjusted cell by cell. *)
Definition flagged_cells (s : Problem) : Triangulation :=
  let error_per_cell := error_indicators s in
  let min_level := n_refinements (parameters s) in
  let max_level := (min_level + Z.of_nat (n_adaptive_refinements (parameters s)))%Z in
  map (adjust_flags min_level max_level error_per_cell
         (maximal_cellwise_error_init s))
      (set_refinement_indicators (triangulation s) error_per_cell).

(** [adapt_mesh ()]. *)
Definition adapt_mesh (s : Problem) : Result Problem :=
  let flagged := flagged_cells s in
  let s := emit Ev_estimate_error s in
  let s := emit Ev_set_refinement_indicators s in
  let s := emit Ev_adjust_flags (with_triangulation flagged s) in
  if DEAL_II_WITH_P4EST E then
    if (1 <? dim s)%Z then
      let s := emit Ev_prepare_coarsening_and_refinement
                 (with_triangulation
                    (prepare_coarsening_and_refinement E (triangulation s)) s) in
      let snapshot := solutions s in
      let s := emit Ev_prepare_solution_transfer s in
      let before := triangulation s in
      let s := emit Ev_execute_coarsening_and_refinement
                 (with_triangulation
                    (execute_coarsening_and_refinement E (triangulation s)) s) in
      let s := make_dofs s in
      let s := emit Ev_interpolate
                 (with_solutions (interpolate E snapshot before (triangulation s)) s) in
      let dt := compute_time_step_size (triangulation s) (parameters s) in
      Ok (emit (Ev_set_time_step dt)
            (with_time_control (set_time_step dt (time_control s)) s))
    else Throw ExcNotImplemented
  else
    let s := emit Ev_prepare_coarsening_and_refinement
               (with_triangulation
                  (prepare_coarsening_and_refinement E (triangulation s)) s) in
    let xsol := solutions s in
    let s := emit Ev_copy_solutions s in
    let s := emit Ev_prepare_solution_transfer s in
    let before := triangulation s in
    let s := emit Ev_execute_coarsening_and_refinement
               (with_triangulation
                  (execute_coarsening_and_refinement E (triangulation s)) s) in
    let s := make_dofs s in
    let s := emit Ev_interpolate
               (with_solutions (interpolate E xsol before (triangulation s)) s) in
    let dt := compute_time_step_size (triangulation s) (parameters s) in
    Ok (emit (Ev_set_time_step dt)
          (with_time_control (set_time_step dt (time_control s)) s)).

(** The error and the magnitude of the density that [output_results] computes:
    [std::sqrt (Utilities::MPI::sum (norm_per_cell.norm_sqr (), MPI_COMM_WORLD))]. *)
Definition density_mag (s : Problem) : double :=
  PrimFloat.sqrt (mpi_sum E (density_norm_sqr E (triangulation s) (solutions s))).

Definition solution_norm_rho (s : Problem) : double :=
  PrimFloat.sqrt (mpi_sum E (density_error_sqr E (parameters s) (triangulation s)
                     (solutions s) (tc_time (time_control s)))).

(** The block guarded by [parameters.cfl_stability_analysis] at the end of
    [output_results], with [density_mag] as computed before it. *)
Definition stability_monitor (mag : double) (s : Problem) : Problem :=
  if cfl_stability_analysis (parameters s) then
    let s :=
      if (first_error_val s <? 0.0)%float
      then emit (Ev_write_first_error (last_error_val s) mag)
             (with_first_error (last_error_val s) mag s)
      else s in
    if (last_error_val s >? 100.0 * first_error_val s)%float
       || (last_error_val s >? 1.5 * first_mangnitude_val s)%float
    then emit (Ev_set_time (final_time (parameters s)))
           (with_time_control
              (set_time (final_time (parameters s)) (time_control s)) s)
    else s
  else s.

(** The two statements of [output_results] that touch the stability record:
    [last_error_val = solution_norm_rho = ...] and the guarded block. *)
Definition observe (err mag : double) (s : Problem) : Problem :=
  stability_monitor mag
    (emit (Ev_write_last_error err) (with_last_error_val err s)).

(** [output_results ()].  Writing the VTU files and the console line changes
    no member and is left out. *)
Definition output_results (s : Problem) : Problem :=
  observe (solution_norm_rho s) (density_mag s) (emit Ev_output_results s).

(** The [switch] on [parameters.integ_type] that creates the operator.  For a
    degree outside 1..5 the code has [Assert (false, ExcNotImplemented ())],
    which raises nothing: a debug build aborts there, and an optimized build
    goes on with [linearized_euler_op] null, which [make_dofs] then uses. *)
Definition select_operator (s : Problem) : Result Problem :=
  match integ_type (parameters s) with
  | other_integrator => Throw ExcNotImplemented
  | _ =>
    let d := fe_degree (parameters s) in
    if ((d =? 1) || (d =? 2) || (d =? 3) || (d =? 4) || (d =? 5))%Z
    then Ok (with_linearized_euler_op true s)
    else Undefined
  end.

(** [linearized_euler_op->project_initial_field (solutions, ExactSolution (...))]. *)
Definition project_initial (s : Problem) : Problem :=
  emit Ev_project_initial_field
    (with_solutions
       (project_initial_field E (parameters s) (triangulation s)
          (tc_time (time_control s))) s).

(** The block under [if (n_refinements_left == 0)] in [run]. *)
Definition capture_maximal_cellwise_error (s : Problem) : Problem :=
  let error_per_cell :=
    estimate_error E (triangulation s) (solutions s) (tmp_solutions s) in
  let s := emit Ev_estimate_error s in
  let v := mpi_max E (linfty_norm E error_per_cell) in
  emit (Ev_capture_maximal_cellwise_error v)
    (with_maximal_cellwise_error_init v s).

(** The loop [while (n_refinements_left > 0)] in [run]. *)
Fixpoint pre_refinement (n_refinements_left : nat) (s : Problem) : Result Problem :=
  match n_refinements_left with
  | O => Ok s
  | S n =>
    s <- adapt_mesh s ;;
    let s := project_initial s in
    let s := if (n =? 0)%nat then capture_maximal_cellwise_error s else s in
    pre_refinement n s
  end.

(** [run ()] up to, and without, the output of the initial fields. *)
Definition initialize (s : Problem) : Result Problem :=
  let s := make_grid s in
  let s :=
    with_time_control
      (setup (final_time (parameters s)) (output_every_time (parameters s))
         (compute_time_step_size (triangulation s) (parameters s))
         (max_time_steps (parameters s))) s in
  s <- select_operator s ;;
  let s := make_dofs s in
  let s := project_initial s in
  pre_refinement (n_adaptive_refinements (parameters s)) s.

(** The [switch] that creates the integrator. *)
Definition select_integrator (t : IntegratorType) : Result IntegratorType :=
  match t with
  | other_integrator => Throw ExcNotImplemented
  | t => Ok t
  end.

(** The first statements of the body of [while (!time_control.done ())]:
    [advance_time_step], the swap of the two vectors and [perform_time_step]. *)
Definition integrate_step (integrator : IntegratorType) (s : Problem) : Problem :=
  let s := with_time_control (advance_time_step (time_control s)) s in
  let s := with_tmp_solutions (solutions s) (with_solutions (tmp_solutions s) s) in
  let dt := tc_time_step (time_control s) in
  emit (Ev_perform_time_step dt)
    (with_solutions
       (perform_time_step E integrator (parameters s) (triangulation s)
          (tmp_solutions s) (solutions s) (tc_time (time_control s)) dt) s).

(** The adaptation on its cadence:
    [if (parameters.n_adaptive_refinements > 0)
       if (time_control.get_step_number () % parameters.adaptive_refinement_interval == 0)
         adapt_mesh ();]
    The remainder of a division by zero is not defined. *)
Definition adapt_on_interval (s : Problem) : Result Problem :=
  if (0 <? n_adaptive_refinements (parameters s))%nat
  then if (adaptive_refinement_interval (parameters s) =? 0)%nat
       then Undefined
       else if (tc_step_number (time_control s)
                mod adaptive_refinement_interval (parameters s) =? 0)%nat
            then adapt_mesh s
            else Ok s
  else Ok s.

(** One pass through the body of [while (!time_control.done ())].
    [HDG_WE::time_step_analysis] only reports and is left out. *)
Definition time_step (integrator : IntegratorType) (s : Problem) : Result Problem :=
  s <- adapt_on_interval (integrate_step integrator s) ;;
  Ok (if at_tick E (time_control s) then output_results s else s).

(** The time loop.  [fuel] bounds the number of passes; [run] supplies
    [max_time_steps], after which [done ()] holds (see [time_loop_done]). *)
Fixpoint time_loop (integrator : IntegratorType) (fuel : nat) (s : Problem)
    : Result Problem :=
  if done (time_control s) then Ok s
  else match fuel with
       | O => Ok s
       | S fuel =>
         s <- time_step integrator s ;;
         time_loop integrator fuel s
       end.

(** [run ()]. *)
Definition run (s : Problem) : Result Problem :=
  s <- initialize s ;;
  let s := output_results s in
  integrator <- select_integrator (integ_type (parameters s)) ;;
  time_loop integrator (max_time_steps (parameters s)) s.

(* ================================================================= *)
(** ** run_cfl_stability_analysis *)

(** What is sent to [pcout]. *)
Inductive Output : Set :=
| out_string (text : string)
| out_double (d : double)
| out_unsigned (n : nat)
| out_endl.

Definition is_double (o : Output) : bool :=
  match o with out_double _ => true | _ => false end.

Definition is_unsigned (o : Output) : bool :=
  match o with out_unsigned _ => true | _ => false end.

(** The local variables of [run_cfl_stability_analysis], the caller's
    [Parameters] object, the stream, and (ghost) the simulations run so far,
    each with the parameters it was constructed from and its verdict. *)
Record CflSearch : Type := mkCflSearch {
  cfl_test : double;
  cfl_closest_stable : double;
  cfl_closest_instable : double;
  parameters_in : Parameters;
  pcout : list Output;
  simulations : list (Parameters * bool)
}.

(** [std::pow (parameters_in.fe_degree, 1.5)]. *)
Definition degree_scaling (p : Parameters) : double :=
  pow E (double_of_Z (fe_degree p)) 1.5%float.

(** [LinearizedEulerProblem<d> we_problem (parameters_in); we_problem.run ();
     simu_was_stable = we_problem.cfl_stable ();] *)
Definition simulate (d : Z) (p : Parameters) : Result bool :=
  s <- run (LinearizedEulerProblem d p) ;;
  Ok (cfl_stable s).

Definition stars : string :=
  "*******************************************************".

(** The choice of the next candidate, after the bounds have been updated. *)
Definition next_cfl_test (scaling cfl_test closest_stable closest_instable : double)
    : double :=
  if (closest_stable <? 0.0)%float then
    if (cfl_test / scaling >? 0.15)%float
    then (cfl_test - 0.1)%float
    else (cfl_test / 3.0)%float
  else if (closest_instable >? 99.0)%float
       then (cfl_test + 0.05)%float
       else ((closest_instable + closest_stable) / 2.0)%float.

(** The body of [for (unsigned int i=0; i<12; ++i)]. *)
Definition cfl_iteration (i : nat) (st : CflSearch) : Result CflSearch :=
  let p := parameters_in st in
  let banner :=
    [ out_string stars; out_endl;
      out_string "cfl "; out_double (cfl_test st * degree_scaling p)%float;
      out_string " in iteration "; out_unsigned i; out_endl;
      out_string stars; out_endl;
      out_endl ] in
  simu_was_stable <-
    (if (dimension p =? 2)%Z then simulate 2 p
     else if (dimension p =? 3)%Z then simulate 3 p
     else Ok false) ;;
  let ran :=
    if ((dimension p =? 2) || (dimension p =? 3))%Z
    then [(p, simu_was_stable)] else [] in
  let closest_stable :=
    if simu_was_stable then cfl_test st else cfl_closest_stable st in
  let closest_instable :=
    if simu_was_stable then cfl_closest_instable st else cfl_test st in
  let next :=
    next_cfl_test (degree_scaling p) (cfl_test st) closest_stable closest_instable in
  Ok (mkCflSearch next closest_stable closest_instable
        (set_cfl_number next p)
        (pcout st ++ banner)
        (simulations st ++ ran)).

(** [count] passes of the loop, starting with the loop variable at [i]. *)
Fixpoint cfl_loop (count : nat) (i : nat) (st : CflSearch) : Result CflSearch :=
  match count with
  | O => Ok st
  | S count =>
    st <- cfl_iteration i st ;;
    cfl_loop count (S i) st
  end.

(** The locals before the loop. *)
Definition cfl_search_start (p : Parameters) : CflSearch :=
  mkCflSearch (cfl_number p) (-0.1)%float 100.0%float p [] [].

(** The three numbers of the final report. *)
Definition reported_instable (st : CflSearch) : double :=
  (cfl_closest_instable st * degree_scaling (parameters_in st))%float.

Definition reported_stable (st : CflSearch) : double :=
  (cfl_closest_stable st * degree_scaling (parameters_in st))%float.

Definition reported_middle (st : CflSearch) : double :=
  ((cfl_closest_instable st + cfl_closest_instable st)
   * degree_scaling (parameters_in st) / 2.0)%float.

(** The output after the loop. *)
Definition final_report (st : CflSearch) : list Output :=
  [ out_string stars; out_endl;
    out_string "Final results for the CFL stability analysis:"; out_endl;
    out_string "The Courant number                ";
    out_double (reported_instable st); out_string " is instable"; out_endl;
    out_string "The Courant number                ";
    out_double (reported_stable st); out_string " is stable"; out_endl;
    out_string "The limit might be in the middle: ";
    out_double (reported_middle st); out_endl;
    out_string stars; out_endl;
    out_endl ].

(** [run_cfl_stability_analysis (parameters_in)]: the state of the caller's
    object and of the stream when the function returns. *)
Definition run_cfl_stability_analysis (p : Parameters) : Result CflSearch :=
  st <- cfl_loop 12 0 (cfl_search_start p) ;;
  Ok (mkCflSearch (cfl_test st) (cfl_closest_stable st) (cfl_closest_instable st)
        (parameters_in st) (pcout st ++ final_report st) (simulations st)).

(** The configurations for which the set-up phase of [run] returns whatever
    [n_adaptive_refinements] is: an integrator of the switch, a degree
    between 1 and 5 and, in a build with p4est, more than one dimension. *)
Definition supported (d : Z) (p : Parameters) : bool :=
  match integ_type p with other_integrator => false | _ => true end
  && ((fe_degree p =? 1) || (fe_degree p =? 2) || (fe_degree p =? 3)
      || (fe_degree p =? 4) || (fe_degree p =? 5))%Z
  && (negb (DEAL_II_WITH_P4EST E) || (1 <? d)%Z).

(** The supported configurations that [main] hands on: two or three
    dimensions. *)
Definition analysable (p : Parameters) : bool :=
  ((dimension p =? 2) || (dimension p =? 3))%Z && supported (dimension p) p.

(** The cadence test of the time loop is defined: without adaptive
    refinement it is not evaluated, and with it the interval must not be
    zero. *)
Definition cadence_defined (p : Parameters) : bool :=
  (n_adaptive_refinements p =? 0)%nat
  || negb (adaptive_refinement_interval p =? 0)%nat.

(** The candidates of the simulations that came out stable, and of those
    that came out unstable, in the order in which they were run. *)
Definition stable_candidates (sims : list (Parameters * bool)) : list double :=
  map (fun sim => cfl_number (fst sim)) (filter (fun sim => snd sim) sims).

Definition instable_candidates (sims : list (Parameters * bool)) : list double :=
  map (fun sim => cfl_number (fst sim)) (filter (fun sim => negb (snd sim)) sims).

(** What holds of the search between two passes of its loop, [k] passes
    after it started from [p]: the caller's object differs from [p] only in
    [cfl_number], which is the current candidate; one simulation has been run
    per pass; each bound is the candidate of the last simulation with the
    matching verdict, and its initial value if there is none. *)
Definition search_invariant (p : Parameters) (k : nat) (st : CflSearch) : Prop :=
  parameters_in st = set_cfl_number (cfl_test st) p /\
  List.length (simulations st) = k /\
  cfl_closest_stable st = last (stable_candidates (simulations st)) (-0.1)%float /\
  cfl_closest_instable st = last (instable_candidates (simulations st)) 100.0%float.

(** What every member function after [time_control.setup] preserves. *)
Definition frame (s s' : Problem) : Prop :=
  parameters s' = parameters s /\ dim s' = dim s /\
  tc_final_time (time_control s') = tc_final_time (time_control s) /\
  tc_max_steps (time_control s') = tc_max_steps (time_control s).

(** [s'] extends the trace of [s] by quiet events and agrees with it on the
    stability record, the reference error, the clock and the step counter. *)
Definition quiet_step (s s' : Problem) : Prop :=
  frame s s' /\
  first_error_val s' = first_error_val s /\
  first_mangnitude_val s' = first_mangnitude_val s /\
  last_error_val s' = last_error_val s /\
  maximal_cellwise_error_init s' = maximal_cellwise_error_init s /\
  tc_time (time_control s') = tc_time (time_control s) /\
  tc_step_number (time_control s') = tc_step_number (time_control s) /\
  exists l, log s' = log s ++ l /\ forallb quiet l = true.

(** The members that the set-up phase of [run] leaves as constructed. *)
Definition untouched (s s' : Problem) : Prop :=
  frame s s' /\
  first_error_val s' = first_error_val s /\
  first_mangnitude_val s' = first_mangnitude_val s /\
  last_error_val s' = last_error_val s /\
  tc_time (time_control s') = tc_time (time_control s) /\
  tc_step_number (time_control s') = tc_step_number (time_control s).

(** Some call of the trace set the clock from the stability monitor. *)
Definition forced_termination (s : Problem) : bool :=
  existsb is_set_time (log s).

(** No call of [adapt_mesh] is due in a run from [s], or [adapt_mesh] is not
    in the case in which it raises. *)
Definition adaptation_possible (s : Problem) : Prop :=
  DEAL_II_WITH_P4EST E = false \/ (1 < dim s)%Z \/
  n_adaptive_refinements (parameters s) = 0.

End Driver.

Arguments dim {E} p.
Arguments parameters {E} p.
Arguments solutions {E} p.
Arguments tmp_solutions {E} p.
Arguments time_control {E} p.
Arguments triangulation {E} p.
Arguments linearized_euler_op {E} p.
Arguments maximal_cellwise_error_init {E} p.
Arguments last_error_val {E} p.
Arguments first_error_val {E} p.
Arguments first_mangnitude_val {E} p.
Arguments log {E} p.
Arguments frame {E} s s'.
Arguments quiet_step {E} s s'.
Arguments untouched {E} s s'.
Arguments forced_termination {E} s.

(* ================================================================= *)
(** ** main *)

(** What the handlers of [main] receive: an exception of the driver, the
    [ExcMessage] that [main] raises itself, or whatever [read_parameters]
    threw. *)
Inductive Caught : Set :=
| Caught_driver (e : Exception)
| Caught_ExcMessage (what : string)
| Caught_read_parameters.

(** [std::to_string] of an integer. *)
Definition to_string (z : Z) : string :=
  DecimalString.NilZero.string_of_int (Z.to_int z).

(** [argc > 1 ? argv[1] : "default_parameters.prm"]; [argv] starts with the
    name of the program. *)
Definition paramfile (argv : list string) : string :=
  match argv with
  | _ :: file :: _ => file
  | _ => "default_parameters.prm"%string
  end.

Section Main.

Context (E : External).

(** [Parameters::read_parameters], declared in [include/parameters.h]: the
    object it fills, or [None] when it throws. *)
Context (read_parameters : string -> option Parameters).

(** [Utilities::MPI::this_mpi_process (MPI_COMM_WORLD)]. *)
Context (this_mpi_process : nat).

(** What [main] carried out to its end. *)
Inductive Work : Type :=
| Work_run (we_problem : Problem E)
| Work_search (search : CflSearch).

(** The [try] block up to the echo of the parameters: the work done and the
    [parameters] object as it then is, or what was thrown; [None] when the
    work has no defined result, which no handler sees. *)
Definition try_block (argv : list string) : option (Caught + Work * Parameters) :=
  match read_parameters (paramfile argv) with
  | None => Some (inl Caught_read_parameters)
  | Some parameters =>
    if (dimension parameters =? 2)%Z then
      if negb (cfl_stability_analysis parameters) then
        match run E (LinearizedEulerProblem E 2 parameters) with
        | Ok we_problem => Some (inr (Work_run we_problem, parameters))
        | Throw e => Some (inl (Caught_driver e))
        | Undefined => None
        end
      else
        match run_cfl_stability_analysis E parameters with
        | Ok search => Some (inr (Work_search search, parameters_in search))
        | Throw e => Some (inl (Caught_driver e))
        | Undefined => None
        end
    else if (dimension parameters =? 3)%Z then
      if negb (cfl_stability_analysis parameters) then
        match run E (LinearizedEulerProblem E 3 parameters) with
        | Ok we_problem => Some (inr (Work_run we_problem, parameters))
        | Throw e => Some (inl (Caught_driver e))
        | Undefined => None
        end
      else
        match run_cfl_stability_analysis E parameters with
        | Ok search => Some (inr (Work_search search, parameters_in search))
        | Throw e => Some (inl (Caught_driver e))
        | Undefined => None
        end
    else
      Some (inl (Caught_ExcMessage
                   ("Invalid dimension " ++ to_string (dimension parameters))))
  end.

(** How [main] ends: the value it returns, the work it carried out, the
    object it handed to [output_parameters], and what its handlers caught. *)
Record Exit : Type := mkExit {
  status : Z;
  work : option Work;
  output_parameters : option Parameters;
  caught : option Caught
}.

(** [main (argc, argv)]: how it ends, if it returns at all.  The banner on
    [std::cout] and the report of the handlers on [std::cerr] are left out. *)
Definition main (argv : list string) : option Exit :=
  match try_block argv with
  | Some (inr (w, parameters)) =>
    Some (mkExit 0 (Some w)
            (if (this_mpi_process =? 0)%nat then Some parameters else None) None)
  | Some (inl c) => Some (mkExit 1 None None (Some c))
  | None => None
  end.

End Main.

Arguments Work_run {E} we_problem.
Arguments Work_search {E} search.
Arguments status {E} e.
Arguments work {E} e.
Arguments output_parameters {E} e.
Arguments caught {E} e.
Arguments mkExit {E} status work output_parameters caught.

(* ================================================================= *)
(** ** The files that an output evaluation writes *)

Section OutputFiles.

(** [Utilities::int_to_string (value, digits)], [linearized_euler_op->Name ()]
    and [Utilities::MPI::n_mpi_processes (MPI_COMM_WORLD)]. *)
Context (int_to_string : Z -> nat -> string).
Context (Name : string).
Context (n_mpi_processes : nat).

(** [filename_pressure] in [output_results]; [output_step_number] is
    [time_control.get_output_step_number ()]. *)
Definition filename_pressure (p : Parameters) (output_step_number : Z) : string :=
  ("sol_deg" ++ int_to_string (fe_degree p) 1
   ++ "_" ++ Name
   ++ "_case" ++ int_to_string (initial_cases p) 1
   ++ "_ref" ++ int_to_string (n_refinements p) 1
   ++ "_step" ++ int_to_string output_step_number 3)%string.

(** The name of the file that process [this_mpi_process] writes with
    [write_vtu]. *)
Definition vtu_filename (p : Parameters) (output_step_number : Z)
    (this_mpi_process : nat) : string :=
  ("output/" ++ filename_pressure p output_step_number
   ++ (if (1 <? n_mpi_processes)%nat
       then "_Proc" ++ to_string (Z.of_nat this_mpi_process) else "")
   ++ ".vtu")%string.

(** The record that process 0 writes with [write_pvtu_record] when there is
    more than one process: its name and the file names it lists. *)
Definition pvtu_record (p : Parameters) (output_step_number : Z)
    (this_mpi_process : nat) : option (string * list string) :=
  if (1 <? n_mpi_processes)%nat && (this_mpi_process =? 0)%nat
  then Some (("output/" ++ filename_pressure p output_step_number ++ ".pvtu")%string,
             map (fun i =>
                    (filename_pressure p output_step_number
                     ++ "_Proc" ++ to_string (Z.of_nat i) ++ ".vtu")%string)
               (seq 0 n_mpi_processes))
  else None.

End OutputFiles.

(* ================================================================= *)
(** ** A small instance of the external interface

    One scalar amplitude on a two-cell mesh, advanced by [y <- y (1 - 4 dt)];
    the exact solution is zero and every step is an output tick.  It serves
    to run the driver on concrete parameters. *)

Module Toy.

Definition cells (p : Parameters) : Triangulation :=
  [ mkCell (n_refinements p) false false true 0 1.0%float;
    mkCell (n_refinements p) false false true 1 2.0%float ].

Definition clear_flags (c : Cell) : Cell :=
  mkCell (level c) false false (is_locally_owned c)
    (active_cell_index c) (minimum_vertex_distance c).

Definition largest (l : list double) : double :=
  fold_left (fun acc x => if (acc <? abs x)%float then abs x else acc) l 0%float.

Definition ext : External :=
  {| Vec := double;
     empty_vector := 0%float;
     DEAL_II_WITH_P4EST := true;
     indeterminate := 12345.0%float;
     input_geometry_description := cells;
     refine_and_coarsen_fixed_number := fun tria _ _ _ => tria;
     prepare_coarsening_and_refinement := fun tria => tria;
     execute_coarsening_and_refinement := map clear_flags;
     estimate_error := fun tria y _ => map (fun _ => abs y) tria;
     project_initial_field := fun _ _ _ => 1.0%float;
     perform_time_step := fun _ _ _ y _ _ dt => (y * (1 - 4 * dt))%float;
     initialize_dof_vector := fun _ => 0%float;
     interpolate := fun snapshot _ _ => snapshot;
     density_norm_sqr := fun _ y => (y * y)%float;
     density_error_sqr := fun _ _ y _ => (y * y)%float;
     linfty_norm := largest;
     mpi_sum := fun x => x;
     mpi_min := fun x => x;
     mpi_max := fun x => x;
     pow := fun x _ => (x * PrimFloat.sqrt x)%float;
     at_tick := fun _ => true |}.

(** Degree 2, explicit Euler, final time 2, at most 40 steps, one level of
    adaptive refinement every second step. *)
Definition params (cfl : double) (analysis : bool) : Parameters :=
  {| dimension := 2;
     fe_degree := 2;
     integ_type := expleuler;
     cfl_number := cfl;
     cfl_stability_analysis := analysis;
     final_time := 2.0%float;
     output_every_time := 0.5%float;
     max_time_steps := 40;
     n_refinements := 2;
     n_adaptive_refinements := 1;
     adaptive_refinement_interval := 2;
     initial_cases := 1;
     membrane_modes := 1 |}.

(** A state in the time loop whose amplitude has grown to 5 after a first
    error and magnitude of 1. *)
Definition diverging : Problem ext :=
  mkProblem ext 2 (params 0.9%float true) 5.0%float 1.0%float
    (setup 2.0%float 0.5%float 0.9%float 40) (cells (params 0.9%float true))
    true 1.0%float 1.0%float 1.0%float 1.0%float [].

(** A state in which the solution has decayed to 0.01, the reference error
    being 1: every indicator is below 5 percent of the reference. *)
Definition calm : Problem ext :=
  mkProblem ext 2 (params 0.3%float true) 0.01%float 0.05%float
    (setup 2.0%float 0.5%float 0.3%float 40) (cells (params 0.3%float true))
    true 1.0%float 0.01%float 1.0%float 1.0%float [].

(** One dimension, no adaptive refinement, no stability analysis. *)
Definition line : Parameters :=
  {| dimension := 1;
     fe_degree := 2;
     integ_type := expleuler;
     cfl_number := 0.3%float;
     cfl_stability_analysis := false;
     final_time := 2.0%float;
     output_every_time := 0.5%float;
     max_time_steps := 40;
     n_refinements := 2;
     n_adaptive_refinements := 0;
     adaptive_refinement_interval := 2;
     initial_cases := 1;
     membrane_modes := 1 |}.

(** Two dimensions, with an integrator that the driver does not know. *)
Definition unknown_integrator : Parameters :=
  {| dimension := 2;
     fe_degree := 2;
     integ_type := other_integrator;
     cfl_number := 0.3%float;
     cfl_stability_analysis := true;
     final_time := 2.0%float;
     output_every_time := 0.5%float;
     max_time_steps := 40;
     n_refinements := 2;
     n_adaptive_refinements := 1;
     adaptive_refinement_interval := 2;
     initial_cases := 1;
     membrane_modes := 1 |}.

(** [Utilities::int_to_string]: the decimal digits, padded with zeros on the
    left to [digits] characters. *)
Definition int_to_string (z : Z) (digits : nat) : string :=
  (String.concat "" (repeat "0" (digits - String.length (to_string z)))
   ++ to_string z)%string.

(** Four parameter files; any other name makes [read_parameters] throw. *)
Definition read_parameters (file : string) : option Parameters :=
  if String.eqb file "default_parameters.prm" then Some (params 0.9%float true)
  else if String.eqb file "ordinary.prm" then Some (params 0.3%float false)
  else if String.eqb file "line.prm" then Some line
  else if String.eqb file "unknown_integrator.prm" then Some unknown_integrator
  else None.

(** A state in the time loop whose amplitude is no number any more. *)
Definition blown_up : Problem ext :=
  mkProblem ext 2 (params 0.9%float true) nan 1.0%float
    (setup 2.0%float 0.5%float 0.9%float 40) (cells (params 0.9%float true))
    true 1.0%float 1.0%float 1.0%float 1.0%float [].

End Toy.

(* ================================================================= *)
(** * Properties *)

(* ================================================================= *)
(** ** Facts about binary64 arithmetic

    Derived from the specification of the primitive operations
    ([FloatAxioms]) and the reference implementation [SpecFloat]. *)

Module Binary64.
Open Scope Z_scope.

Lemma pow2_pred (d : Z) : 0 < d -> 2 ^ d = 2 * 2 ^ (d - 1).
Proof.
  intros Hd. rewrite <- Z.pow_succ_r by lia. f_equal. lia.
Qed.

Lemma digits2_pos_bounds (p : positive) :
  2 ^ (Zpos (digits2_pos p) - 1) <= Zpos p < 2 ^ Zpos (digits2_pos p).
Proof.
  induction p as [p IH | p IH |]; cbn [digits2_pos].
  - rewrite Pos2Z.inj_succ. change (Zpos p~1) with (2 * Zpos p + 1).
    pose proof (Pos2Z.is_pos (digits2_pos p)) as Hd.
    remember (Zpos (digits2_pos p)) as d eqn:Ed. clear Ed.
    replace (Z.succ d - 1) with d by lia.
    rewrite Z.pow_succ_r by lia.
    pose proof (pow2_pred d Hd) as E.
    remember (2 ^ d) as b in *. remember (2 ^ (d - 1)) as a in *. remember (Zpos p) as P in *.
    clear - IH E. lia.
  - rewrite Pos2Z.inj_succ. change (Zpos p~0) with (2 * Zpos p).
    pose proof (Pos2Z.is_pos (digits2_pos p)) as Hd.
    remember (Zpos (digits2_pos p)) as d eqn:Ed. clear Ed.
    replace (Z.succ d - 1) with d by lia.
    rewrite Z.pow_succ_r by lia.
    pose proof (pow2_pred d Hd) as E.
    remember (2 ^ d) as b in *. remember (2 ^ (d - 1)) as a in *. remember (Zpos p) as P in *.
    clear - IH E. lia.
  - cbn. lia.
Qed.

Lemma shr_1_m (mrs : shr_record) :
  0 <= shr_m mrs -> shr_m (shr_1 mrs) = shr_m mrs / 2.
Proof.
  destruct mrs as [m r s]; cbn [shr_m]; intros Hm.
  destruct m as [| p | p]; [reflexivity | | lia].
  destruct p as [p | p |]; cbn [shr_1 shr_m].
  - change (Zpos p~1) with (2 * Zpos p + 1). apply Z.div_unique with (r := 1); lia.
  - change (Zpos p~0) with (2 * Zpos p). apply Z.div_unique with (r := 0); lia.
  - reflexivity.
Qed.

Lemma iter_shr_1_m (n : positive) : forall mrs : shr_record,
  0 <= shr_m mrs ->
  shr_m (iter_pos shr_1 n mrs) = shr_m mrs / 2 ^ Zpos n.
Proof.
  assert (Hnn : forall mrs, 0 <= shr_m mrs -> 0 <= shr_m mrs / 2).
  { intros. apply Z.div_pos; lia. }
  induction n as [n IH | n IH |]; intros mrs Hm; cbn [iter_pos];
    try (assert (Hp : 0 < 2 ^ Zpos n) by (apply Z.pow_pos_nonneg; lia)).
  - assert (H1 : 0 <= shr_m (shr_1 mrs)) by (rewrite shr_1_m by lia; auto).
    assert (H2 : 0 <= shr_m (iter_pos shr_1 n (shr_1 mrs))).
    { rewrite IH by lia. apply Z.div_pos; [lia | apply Z.pow_pos_nonneg; lia]. }
    rewrite IH by lia. rewrite IH by lia. rewrite shr_1_m by lia.
    change (Zpos n~1) with (2 * Zpos n + 1).
    replace (2 * Zpos n + 1) with (1 + Zpos n + Zpos n) by lia.
    rewrite !Z.pow_add_r by lia. rewrite Z.pow_1_r.
    rewrite !Z.div_div by nia.
    f_equal. ring.
  - assert (H2 : 0 <= shr_m (iter_pos shr_1 n mrs)).
    { rewrite IH by lia. apply Z.div_pos; [lia | apply Z.pow_pos_nonneg; lia]. }
    rewrite IH by lia. rewrite IH by lia.
    change (Zpos n~0) with (2 * Zpos n).
    replace (2 * Zpos n) with (Zpos n + Zpos n) by lia.
    rewrite !Z.pow_add_r by lia.
    rewrite !Z.div_div by nia.
    reflexivity.
  - rewrite shr_1_m by lia. reflexivity.
Qed.

Lemma round_nearest_even_bounds (m : Z) (l : location) :
  m <= round_nearest_even m l <= m + 1.
Proof.
  destruct l as [| [ | | ]]; cbn [round_nearest_even]; try lia.
  destruct (Z.even m); lia.
Qed.

Lemma pow2_pos (n : Z) : 0 <= n -> 0 < 2 ^ n.
Proof. intros; apply Z.pow_pos_nonneg; lia. Qed.

Lemma pow2_split (a b : Z) : 0 <= a -> 0 <= b -> 2 ^ (a + b) = 2 ^ a * 2 ^ b.
Proof. intros; apply Z.pow_add_r; lia. Qed.

(** Rounding a positive product [M * 2^E] that has to be shifted right: the
    result is at least the truncated quotient placed at the target exponent. *)
Lemma binary_round_aux_not_below (M : positive) (E : Z) (m : positive) (ex : Z) :
  let e1 := fexp prec emax (Zpos (digits2_pos M) + E) in
  E < e1 ->
  ex <= e1 ->
  0 < Zpos M / 2 ^ (e1 - E) ->
  (ex < e1 \/ Zpos m < Zpos M / 2 ^ (e1 - E)) ->
  SFltb (binary_round_aux prec emax false (Zpos M) E loc_Exact)
        (S754_finite false m ex) = false.
Proof.
  intros e1 HE Hex Hq Hgt.
  unfold binary_round_aux, shr_fexp. cbn [Zdigits2 shr_record_of_loc].
  fold e1.
  destruct (e1 - E) as [| p1 | p1] eqn:En1; try lia.
  cbn [shr].
  rewrite iter_shr_1_m by (cbn [shr_m]; lia). cbn [shr_m].
  set (q := Zpos M / 2 ^ Zpos p1) in *.
  set (l := loc_of_shr_record _).
  pose proof (round_nearest_even_bounds q l) as Hr.
  destruct (round_nearest_even q l) as [| pm | pm] eqn:Emr; try lia.
  cbn [Zdigits2].
  replace (E + Zpos p1) with e1 by lia.
  assert (Hemin : -1074 <= e1) by (unfold e1, fexp, SpecFloat.emin, prec, emax; lia).
  pose proof (digits2_pos_bounds pm) as Hdpm.
  set (dpm := Zpos (digits2_pos pm)) in *.
  assert (Hn2 : fexp prec emax (dpm + e1) - e1 = Z.max (dpm - 53) (-1074 - e1)).
  { unfold fexp, SpecFloat.emin, prec, emax; lia. }
  rewrite Hn2.
  destruct (Z.max (dpm - 53) (-1074 - e1)) as [| p2 | p2] eqn:En2; cbn [shr shr_m].
  - destruct (e1 <=? emax - prec); [| reflexivity].
    unfold SFltb, SFcompare.
    destruct (Z.compare_spec e1 ex) as [Heq | Hlt | Hgt']; try lia; try reflexivity.
    destruct Hgt as [Hgt | Hgt]; [lia |].
    rewrite Pos.compare_cont_spec. cbn [Pos.switch_Eq].
    assert (Hc : (pm ?= m)%positive = Gt) by (apply Pos.compare_gt_iff; lia).
    rewrite Hc. reflexivity.
  - rewrite iter_shr_1_m by (cbn [shr_m]; lia). cbn [shr_m].
    assert (Hdp : Zpos p2 = dpm - 53) by lia.
    assert (Hm2 : 2 ^ 52 <= Zpos pm / 2 ^ Zpos p2).
    { apply Z.div_le_lower_bound; [apply pow2_pos; lia |].
      rewrite Hdp, <- pow2_split by lia.
      replace (dpm - 53 + 52) with (dpm - 1) by lia. lia. }
    destruct (Zpos pm / 2 ^ Zpos p2) as [| pf | pf]; try (cbn in Hm2; lia).
    destruct (e1 + Zpos p2 <=? emax - prec); [| reflexivity].
    unfold SFltb, SFcompare.
    destruct (Z.compare_spec (e1 + Zpos p2) ex) as [Heq | Hlt | Hgt']; try lia; reflexivity.
  - destruct (e1 <=? emax - prec); [| reflexivity].
    unfold SFltb, SFcompare.
    destruct (Z.compare_spec e1 ex) as [Heq | Hlt | Hgt']; try lia; try reflexivity.
    destruct Hgt as [Hgt | Hgt]; [lia |].
    rewrite Pos.compare_cont_spec. cbn [Pos.switch_Eq].
    assert (Hc : (pm ?= m)%positive = Gt) by (apply Pos.compare_gt_iff; lia).
    rewrite Hc. reflexivity.
Qed.

Lemma pow2_lt_inv (a b : Z) : 0 <= b -> 2 ^ a < 2 ^ b -> a < b.
Proof. intros Hb H. apply (Z.pow_lt_mono_r_iff 2); lia. Qed.

Lemma SF_100 : Prim2SF 100 = S754_finite false 7036874417766400 (-46).
Proof. vm_compute. reflexivity. Qed.

(** Multiplying a positive finite binary64 number by 100 never yields a
    smaller number: the rounded product stays at or above the operand. *)
Lemma SFmul_100_not_below (m : positive) (ex : Z) :
  bounded prec emax m ex = true ->
  SFltb (SF64mul (Prim2SF 100) (S754_finite false m ex)) (S754_finite false m ex) = false.
Proof.
  intros Hb. rewrite SF_100. unfold SF64mul, SFmul. cbn [xorb].
  apply andb_prop in Hb. destruct Hb as [Hcan Hle].
  unfold canonical_mantissa in Hcan. apply Z.eqb_eq in Hcan.
  unfold fexp, SpecFloat.emin, prec, emax in Hcan.
  pose proof (digits2_pos_bounds m) as Hdm.
  pose proof (digits2_pos_bounds (7036874417766400 * m)) as Hd.
  pose proof (Pos2Z.is_pos (digits2_pos m)) as Hdm0.
  pose proof (Pos2Z.is_pos (digits2_pos (7036874417766400 * m))) as Hd0.
  remember (Zpos (digits2_pos m)) as dm eqn:Edm.
  remember (Zpos (digits2_pos (7036874417766400 * m))) as d eqn:Ed.
  rewrite Pos2Z.inj_mul in Hd.
  assert (Hlo : dm + 51 < d).
  { apply pow2_lt_inv; [lia |].
    replace (dm + 51) with (dm - 1 + 52) by lia. rewrite pow2_split by lia.
    change (2 ^ 52) with 4503599627370496.
    remember (2 ^ (dm - 1)) as a. remember (2 ^ d) as b. remember (Zpos m) as P.
    clear - Hdm Hd. lia. }
  assert (Hhi : d - 1 < dm + 53).
  { apply pow2_lt_inv; [lia |].
    rewrite pow2_split by lia. change (2 ^ 53) with 9007199254740992.
    remember (2 ^ dm) as a. remember (2 ^ (d - 1)) as b. remember (Zpos m) as P.
    clear - Hdm Hd. lia. }
  assert (He1 : fexp prec emax (d + (-46 + ex)) = Z.max (d + ex - 99) (-1074)).
  { unfold fexp, SpecFloat.emin, prec, emax. lia. }
  apply binary_round_aux_not_below; rewrite <- Ed, He1.
  - lia.
  - lia.
  - destruct (Z.eq_dec (Z.max (d + ex - 99) (-1074)) ex) as [Heq | Hne].
    + rewrite Heq. replace (ex - (-46 + ex)) with 46 by lia.
      rewrite Pos2Z.inj_mul. change (2 ^ 46) with 70368744177664.
      replace (7036874417766400 * Zpos m) with (100 * Zpos m * 70368744177664) by lia.
      rewrite Z.div_mul by lia. lia.
    + assert (Hmx : Z.max (d + ex - 99) (-1074) = d + ex - 99) by lia.
      rewrite Hmx. replace (d + ex - 99 - (-46 + ex)) with (d - 53) by lia.
      apply Z.lt_le_trans with (2 ^ 52); [reflexivity |].
      apply Z.div_le_lower_bound; [apply pow2_pos; lia |].
      rewrite <- pow2_split by lia. replace (d - 53 + 52) with (d - 1) by lia.
      rewrite Pos2Z.inj_mul. lia.
  - destruct (Z.eq_dec (Z.max (d + ex - 99) (-1074)) ex) as [Heq | Hne]; [right | left; lia].
    rewrite Heq. replace (ex - (-46 + ex)) with 46 by lia.
    rewrite Pos2Z.inj_mul. change (2 ^ 46) with 70368744177664.
    replace (7036874417766400 * Zpos m) with (100 * Zpos m * 70368744177664) by lia.
    rewrite Z.div_mul by lia. lia.
Qed.

Open Scope float_scope.

Lemma SF_zero : Prim2SF 0 = S754_zero false.
Proof. vm_compute. reflexivity. Qed.

Lemma binary_round_aux_not_negative (m e : Z) (l : location) :
  SFltb (binary_round_aux prec emax false m e l) (S754_zero false) = false.
Proof.
  unfold binary_round_aux.
  destruct (shr_fexp prec emax m e l) as [mrs' e'].
  destruct (shr_fexp prec emax _ e' loc_Exact) as [mrs'' e''].
  destruct (shr_m mrs''); [reflexivity | | reflexivity].
  destruct (e'' <=? emax - prec)%Z; reflexivity.
Qed.

Lemma sqrt_not_negative (x : float) : (PrimFloat.sqrt x <? 0) = false.
Proof.
  rewrite ltb_spec, sqrt_spec, SF_zero.
  unfold SF64sqrt, SFsqrt.
  destruct (Prim2SF x) as [s | [|] | | [|] m e]; try reflexivity.
  destruct (SFsqrt_core_binary prec emax (Zpos m) e) as [[mz ez] lz].
  apply binary_round_aux_not_negative.
Qed.

Lemma mul_100_not_below (e : float) :
  (e <? 0) = false -> (100 * e <? e) = false.
Proof.
  rewrite !ltb_spec, mul_spec, SF_zero.
  pose proof (Prim2SF_valid e) as Hv.
  destruct (Prim2SF e) as [s | [|] | | [|] m ex] eqn:E; intros Hneg;
    try discriminate.
  - rewrite SF_100. destruct s; reflexivity.
  - rewrite SF_100. reflexivity.
  - rewrite SF_100. reflexivity.
  - apply SFmul_100_not_below. exact Hv.
Qed.

Lemma SFcompare_refl (x : spec_float) :
  x <> S754_nan -> SFcompare x x = Some Eq.
Proof.
  destruct x as [s | [|] | | [|] m e]; intros Hx; try reflexivity; try congruence;
    cbn [SFcompare]; rewrite Z.compare_refl, Pos.compare_cont_refl; reflexivity.
Qed.

Lemma leb_refl (x : float) : is_nan x = false -> (x <=? x) = true.
Proof.
  unfold is_nan. rewrite eqb_spec, leb_spec. unfold SFeqb, SFleb.
  destruct (Prim2SF x) as [s | [|] | | [|] m e] eqn:E; intros H;
    try reflexivity; try discriminate;
    rewrite SFcompare_refl by discriminate; reflexivity.
Qed.

(** The order [<] of binary64: irreflexive, transitive, false as soon as an
    operand is NaN, and total on the numbers that are not NaN. *)
Lemma SFltb_irrefl (x : spec_float) : SFltb x x = false.
Proof.
  unfold SFltb. destruct x as [s | [|] | | [|] m e]; try reflexivity;
    rewrite SFcompare_refl by discriminate; reflexivity.
Qed.

Lemma ltb_irrefl (x : float) : (x <? x) = false.
Proof. rewrite ltb_spec. apply SFltb_irrefl. Qed.

Lemma is_nan_SF (x : float) : is_nan x = true <-> Prim2SF x = S754_nan.
Proof.
  unfold is_nan. rewrite eqb_spec. unfold SFeqb.
  destruct (Prim2SF x) as [s | [|] | | [|] m e] eqn:E; split; intros H;
    try reflexivity; try discriminate;
    rewrite SFcompare_refl in H by discriminate; discriminate.
Qed.

Lemma ltb_nan_l (x y : float) : is_nan x = true -> (x <? y) = false.
Proof.
  intros H. apply is_nan_SF in H. rewrite ltb_spec, H. reflexivity.
Qed.

Lemma ltb_nan_r (x y : float) : is_nan y = true -> (x <? y) = false.
Proof.
  intros H. apply is_nan_SF in H. rewrite ltb_spec, H. unfold SFltb.
  destruct (Prim2SF x) as [s | [|] | | [|] m e]; reflexivity.
Qed.

Lemma ltb_not_nan (x y : float) : (x <? y) = true -> is_nan x = false /\ is_nan y = false.
Proof.
  intros H. split.
  - destruct (is_nan x) eqn:E; [| reflexivity]. rewrite (ltb_nan_l _ _ E) in H. discriminate.
  - destruct (is_nan y) eqn:E; [| reflexivity]. rewrite (ltb_nan_r _ _ E) in H. discriminate.
Qed.

Lemma SFltb_trans (x y z : spec_float) :
  SFltb x y = true -> SFltb y z = true -> SFltb x z = true.
Proof.
  unfold SFltb.
  destruct x as [sx | [|] | | [|] mx ex], y as [sy | [|] | | [|] my ey],
           z as [sz | [|] | | [|] mz ez];
    cbn [SFcompare]; try discriminate; try reflexivity; intros Hxy Hyz.
  all: repeat match goal with
       | H : context [Z.compare ?a ?b] |- _ =>
           let C := fresh "C" in destruct (Z.compare_spec a b) as [C | C | C];
           cbn [CompOpp] in H; try discriminate H
       end.
  all: repeat match goal with
       | |- context [Z.compare ?a ?b] =>
           let C := fresh "C" in destruct (Z.compare_spec a b) as [C | C | C];
           cbn [CompOpp]; try reflexivity; try lia
       end.
  all: subst.
  all: repeat match goal with
       | H : context [Pos.compare_cont Eq ?a ?b] |- _ =>
         change (Pos.compare_cont Eq a b) with (Pos.compare a b) in H;
         let C := fresh "P" in destruct (Pos.compare_spec a b) as [C | C | C];
         cbn [CompOpp] in H; try discriminate H
       end.
  all: repeat match goal with
       | |- context [Pos.compare_cont Eq ?a ?b] =>
         change (Pos.compare_cont Eq a b) with (Pos.compare a b);
         let C := fresh "P" in destruct (Pos.compare_spec a b) as [C | C | C];
         cbn [CompOpp]; try reflexivity; try lia
       end.
Qed.

Lemma ltb_trans (x y z : float) :
  (x <? y) = true -> (y <? z) = true -> (x <? z) = true.
Proof. rewrite !ltb_spec. apply SFltb_trans. Qed.

(** A number that is not below zero is above [100.0 * -1.0], the product that
    the stability test forms from the sentinel of [first_error_val]. *)
Lemma minus_100_below (x : float) :
  is_nan x = false -> (x <? 0) = false -> (100.0 * (-1.0) <? x) = true.
Proof.
  intros Hn. assert (Hx : Prim2SF x <> S754_nan).
  { intros H. apply is_nan_SF in H. congruence. }
  rewrite !ltb_spec.
  replace (Prim2SF (100.0 * (-1.0))) with (S754_finite true 7036874417766400 (-46))
    by (vm_compute; reflexivity).
  replace (Prim2SF 0) with (S754_zero false) by (vm_compute; reflexivity).
  destruct (Prim2SF x) as [s | [|] | | [|] m e]; try reflexivity; try discriminate.
  congruence.
Qed.

Lemma SFltb_cotrans (x y z : spec_float) :
  y <> S754_nan -> SFltb x z = true -> SFltb x y = true \/ SFltb y z = true.
Proof.
  unfold SFltb.
  destruct x as [sx | [|] | | [|] mx ex], y as [sy | [|] | | [|] my ey],
           z as [sz | [|] | | [|] mz ez];
    cbn [SFcompare]; intros Hy Hxz; try discriminate; try congruence;
    try (left; reflexivity); try (right; reflexivity).
  all: repeat match goal with
       | H : context [Z.compare ?a ?b] |- _ =>
           let C := fresh "C" in destruct (Z.compare_spec a b) as [C | C | C];
           cbn [CompOpp] in H; try discriminate H
       end.
  all: repeat match goal with
       | |- context [Z.compare ?a ?b] =>
           let C := fresh "C" in destruct (Z.compare_spec a b) as [C | C | C];
           cbn [CompOpp]; try (left; reflexivity); try (right; reflexivity); try lia
       end.
  all: subst.
  all: repeat match goal with
       | H : context [Pos.compare_cont Eq ?a ?b] |- _ =>
         change (Pos.compare_cont Eq a b) with (Pos.compare a b) in H;
         let C := fresh "P" in destruct (Pos.compare_spec a b) as [C | C | C];
         cbn [CompOpp] in H; try discriminate H
       end.
  all: repeat match goal with
       | |- context [Pos.compare_cont Eq ?a ?b] =>
         change (Pos.compare_cont Eq a b) with (Pos.compare a b);
         let C := fresh "P" in destruct (Pos.compare_spec a b) as [C | C | C];
         cbn [CompOpp]; try (left; reflexivity); try (right; reflexivity); try lia
       end.
Qed.

Lemma ltb_cotrans (x y z : float) :
  is_nan y = false -> (x <? z) = true -> (x <? y) = true \/ (y <? z) = true.
Proof.
  intros Hy. rewrite !ltb_spec. apply SFltb_cotrans.
  intros H. apply is_nan_SF in H. congruence.
Qed.

End Binary64.

(* ================================================================= *)
(** ** Facts about strings and the decimal notation of integers *)

Module Text.
Open Scope string_scope.

Lemma to_int_not_nil (z : Z) :
  Z.to_int z <> Decimal.Pos Decimal.Nil /\ Z.to_int z <> Decimal.Neg Decimal.Nil.
Proof.
  split; intros H; pose proof (f_equal Z.of_int H) as Hz;
    rewrite DecimalZ.of_to in Hz; cbn in Hz; subst z; discriminate H.
Qed.

(** [std::to_string] writes different integers differently. *)
Lemma to_string_inj (a b : Z) : to_string a = to_string b -> a = b.
Proof.
  unfold to_string. intros H.
  apply (f_equal DecimalString.NilZero.int_of_string) in H.
  destruct (to_int_not_nil a) as (A1 & A2), (to_int_not_nil b) as (B1 & B2).
  rewrite !DecimalString.NilZero.isi in H by assumption.
  injection H as H. apply DecimalZ.to_int_inj. exact H.
Qed.

Lemma append_assoc (a b c : string) : (a ++ b) ++ c = a ++ (b ++ c).
Proof. induction a as [| x a IH]; cbn; [reflexivity | rewrite IH; reflexivity]. Qed.

Lemma length_append (a b : string) :
  String.length (a ++ b) = String.length a + String.length b.
Proof. induction a as [| x a IH]; cbn; [reflexivity | rewrite IH; reflexivity]. Qed.

Lemma append_cancel_l (a b c : string) : a ++ b = a ++ c -> b = c.
Proof.
  induction a as [| x a IH]; cbn; intros H; [exact H |].
  injection H as H. exact (IH H).
Qed.

Lemma append_cancel_r (s : string) : forall a b : string, a ++ s = b ++ s -> a = b.
Proof.
  induction a as [| x a IH]; intros [| y b] H.
  - reflexivity.
  - apply (f_equal String.length) in H. cbn in H. rewrite length_append in H. lia.
  - apply (f_equal String.length) in H. cbn in H. rewrite length_append in H. lia.
  - cbn in H. injection H as -> H. rewrite (IH b H). reflexivity.
Qed.

End Text.

(* ================================================================= *)
(** ** The trace and the members each member function leaves alone *)

Lemma count_app (f : Event -> bool) (l1 l2 : list Event) :
  count f (l1 ++ l2) = count f l1 + count f l2.
Proof.
  unfold count. rewrite filter_app, length_app. reflexivity.
Qed.

Lemma quiet_count (l : list Event) :
  forallb quiet l = true ->
  count is_first_error_write l = 0 /\ count is_last_error_write l = 0 /\
  count is_output l = 0 /\ count is_capture l = 0 /\ count is_set_time l = 0.
Proof.
  induction l as [| e l IH]; cbn [forallb]; intros H.
  - repeat split.
  - apply andb_prop in H. destruct H as [He Hl].
    specialize (IH Hl). destruct IH as (H1 & H2 & H3 & H4 & H5).
    unfold count in *. cbn [filter].
    destruct e; cbn in He; try discriminate; cbn; repeat split; assumption.
Qed.

Lemma quiet_app (l1 l2 : list Event) :
  forallb quiet l1 = true -> forallb quiet l2 = true ->
  forallb quiet (l1 ++ l2) = true.
Proof.
  intros H1 H2. rewrite forallb_app, H1, H2. reflexivity.
Qed.

Lemma existsb_count_set_time (l : list Event) :
  count is_set_time l = 0 -> existsb is_set_time l = false.
Proof.
  induction l as [| e l IH]; [reflexivity |].
  unfold count. cbn [filter existsb].
  destruct (is_set_time e); cbn; [discriminate | exact IH].
Qed.

Section DriverFacts.

Context (E : External).

Local Abbreviation Problem := (Problem E).

(** Each setter changes the members it names and no other. *)

Lemma dim_emit e (s : Problem) : dim (emit E e s) = dim s.
Proof. reflexivity. Qed.

Lemma parameters_emit e (s : Problem) : parameters (emit E e s) = parameters s.
Proof. reflexivity. Qed.

Lemma solutions_emit e (s : Problem) : solutions (emit E e s) = solutions s.
Proof. reflexivity. Qed.

Lemma tmp_solutions_emit e (s : Problem) : tmp_solutions (emit E e s) = tmp_solutions s.
Proof. reflexivity. Qed.

Lemma time_control_emit e (s : Problem) : time_control (emit E e s) = time_control s.
Proof. reflexivity. Qed.

Lemma triangulation_emit e (s : Problem) : triangulation (emit E e s) = triangulation s.
Proof. reflexivity. Qed.

Lemma linearized_euler_op_emit e (s : Problem) : linearized_euler_op (emit E e s) = linearized_euler_op s.
Proof. reflexivity. Qed.

Lemma maximal_cellwise_error_init_emit e (s : Problem) : maximal_cellwise_error_init (emit E e s) = maximal_cellwise_error_init s.
Proof. reflexivity. Qed.

Lemma last_error_val_emit e (s : Problem) : last_error_val (emit E e s) = last_error_val s.
Proof. reflexivity. Qed.

Lemma first_error_val_emit e (s : Problem) : first_error_val (emit E e s) = first_error_val s.
Proof. reflexivity. Qed.

Lemma first_mangnitude_val_emit e (s : Problem) : first_mangnitude_val (emit E e s) = first_mangnitude_val s.
Proof. reflexivity. Qed.

Lemma log_emit e (s : Problem) : log (emit E e s) = log s ++ [e].
Proof. reflexivity. Qed.

Lemma dim_with_solutions v (s : Problem) : dim (with_solutions E v s) = dim s.
Proof. reflexivity. Qed.

Lemma parameters_with_solutions v (s : Problem) : parameters (with_solutions E v s) = parameters s.
Proof. reflexivity. Qed.

Lemma solutions_with_solutions v (s : Problem) : solutions (with_solutions E v s) = v.
Proof. reflexivity. Qed.

Lemma tmp_solutions_with_solutions v (s : Problem) : tmp_solutions (with_solutions E v s) = tmp_solutions s.
Proof. reflexivity. Qed.

Lemma time_control_with_solutions v (s : Problem) : time_control (with_solutions E v s) = time_control s.
Proof. reflexivity. Qed.

Lemma triangulation_with_solutions v (s : Problem) : triangulation (with_solutions E v s) = triangulation s.
Proof. reflexivity. Qed.

Lemma linearized_euler_op_with_solutions v (s : Problem) : linearized_euler_op (with_solutions E v s) = linearized_euler_op s.
Proof. reflexivity. Qed.

Lemma maximal_cellwise_error_init_with_solutions v (s : Problem) : maximal_cellwise_error_init (with_solutions E v s) = maximal_cellwise_error_init s.
Proof. reflexivity. Qed.

Lemma last_error_val_with_solutions v (s : Problem) : last_error_val (with_solutions E v s) = last_error_val s.
Proof. reflexivity. Qed.

Lemma first_error_val_with_solutions v (s : Problem) : first_error_val (with_solutions E v s) = first_error_val s.
Proof. reflexivity. Qed.

Lemma first_mangnitude_val_with_solutions v (s : Problem) : first_mangnitude_val (with_solutions E v s) = first_mangnitude_val s.
Proof. reflexivity. Qed.

Lemma log_with_solutions v (s : Problem) : log (with_solutions E v s) = log s.
Proof. reflexivity. Qed.

Lemma dim_with_tmp_solutions v (s : Problem) : dim (with_tmp_solutions E v s) = dim s.
Proof. reflexivity. Qed.

Lemma parameters_with_tmp_solutions v (s : Problem) : parameters (with_tmp_solutions E v s) = parameters s.
Proof. reflexivity. Qed.

Lemma solutions_with_tmp_solutions v (s : Problem) : solutions (with_tmp_solutions E v s) = solutions s.
Proof. reflexivity. Qed.

Lemma tmp_solutions_with_tmp_solutions v (s : Problem) : tmp_solutions (with_tmp_solutions E v s) = v.
Proof. reflexivity. Qed.

Lemma time_control_with_tmp_solutions v (s : Problem) : time_control (with_tmp_solutions E v s) = time_control s.
Proof. reflexivity. Qed.

Lemma triangulation_with_tmp_solutions v (s : Problem) : triangulation (with_tmp_solutions E v s) = triangulation s.
Proof. reflexivity. Qed.

Lemma linearized_euler_op_with_tmp_solutions v (s : Problem) : linearized_euler_op (with_tmp_solutions E v s) = linearized_euler_op s.
Proof. reflexivity. Qed.

Lemma maximal_cellwise_error_init_with_tmp_solutions v (s : Problem) : maximal_cellwise_error_init (with_tmp_solutions E v s) = maximal_cellwise_error_init s.
Proof. reflexivity. Qed.

Lemma last_error_val_with_tmp_solutions v (s : Problem) : last_error_val (with_tmp_solutions E v s) = last_error_val s.
Proof. reflexivity. Qed.

Lemma first_error_val_with_tmp_solutions v (s : Problem) : first_error_val (with_tmp_solutions E v s) = first_error_val s.
Proof. reflexivity. Qed.

Lemma first_mangnitude_val_with_tmp_solutions v (s : Problem) : first_mangnitude_val (with_tmp_solutions E v s) = first_mangnitude_val s.
Proof. reflexivity. Qed.

Lemma log_with_tmp_solutions v (s : Problem) : log (with_tmp_solutions E v s) = log s.
Proof. reflexivity. Qed.

Lemma dim_with_time_control tc (s : Problem) : dim (with_time_control E tc s) = dim s.
Proof. reflexivity. Qed.

Lemma parameters_with_time_control tc (s : Problem) : parameters (with_time_control E tc s) = parameters s.
Proof. reflexivity. Qed.

Lemma solutions_with_time_control tc (s : Problem) : solutions (with_time_control E tc s) = solutions s.
Proof. reflexivity. Qed.

Lemma tmp_solutions_with_time_control tc (s : Problem) : tmp_solutions (with_time_control E tc s) = tmp_solutions s.
Proof. reflexivity. Qed.

Lemma time_control_with_time_control tc (s : Problem) : time_control (with_time_control E tc s) = tc.
Proof. reflexivity. Qed.

Lemma triangulation_with_time_control tc (s : Problem) : triangulation (with_time_control E tc s) = triangulation s.
Proof. reflexivity. Qed.

Lemma linearized_euler_op_with_time_control tc (s : Problem) : linearized_euler_op (with_time_control E tc s) = linearized_euler_op s.
Proof. reflexivity. Qed.

Lemma maximal_cellwise_error_init_with_time_control tc (s : Problem) : maximal_cellwise_error_init (with_time_control E tc s) = maximal_cellwise_error_init s.
Proof. reflexivity. Qed.

Lemma last_error_val_with_time_control tc (s : Problem) : last_error_val (with_time_control E tc s) = last_error_val s.
Proof. reflexivity. Qed.

Lemma first_error_val_with_time_control tc (s : Problem) : first_error_val (with_time_control E tc s) = first_error_val s.
Proof. reflexivity. Qed.

Lemma first_mangnitude_val_with_time_control tc (s : Problem) : first_mangnitude_val (with_time_control E tc s) = first_mangnitude_val s.
Proof. reflexivity. Qed.

Lemma log_with_time_control tc (s : Problem) : log (with_time_control E tc s) = log s.
Proof. reflexivity. Qed.

Lemma dim_with_triangulation t (s : Problem) : dim (with_triangulation E t s) = dim s.
Proof. reflexivity. Qed.

Lemma parameters_with_triangulation t (s : Problem) : parameters (with_triangulation E t s) = parameters s.
Proof. reflexivity. Qed.

Lemma solutions_with_triangulation t (s : Problem) : solutions (with_triangulation E t s) = solutions s.
Proof. reflexivity. Qed.

Lemma tmp_solutions_with_triangulation t (s : Problem) : tmp_solutions (with_triangulation E t s) = tmp_solutions s.
Proof. reflexivity. Qed.

Lemma time_control_with_triangulation t (s : Problem) : time_control (with_triangulation E t s) = time_control s.
Proof. reflexivity. Qed.

Lemma triangulation_with_triangulation t (s : Problem) : triangulation (with_triangulation E t s) = t.
Proof. reflexivity. Qed.

Lemma linearized_euler_op_with_triangulation t (s : Problem) : linearized_euler_op (with_triangulation E t s) = linearized_euler_op s.
Proof. reflexivity. Qed.

Lemma maximal_cellwise_error_init_with_triangulation t (s : Problem) : maximal_cellwise_error_init (with_triangulation E t s) = maximal_cellwise_error_init s.
Proof. reflexivity. Qed.

Lemma last_error_val_with_triangulation t (s : Problem) : last_error_val (with_triangulation E t s) = last_error_val s.
Proof. reflexivity. Qed.

Lemma first_error_val_with_triangulation t (s : Problem) : first_error_val (with_triangulation E t s) = first_error_val s.
Proof. reflexivity. Qed.

Lemma first_mangnitude_val_with_triangulation t (s : Problem) : first_mangnitude_val (with_triangulation E t s) = first_mangnitude_val s.
Proof. reflexivity. Qed.

Lemma log_with_triangulation t (s : Problem) : log (with_triangulation E t s) = log s.
Proof. reflexivity. Qed.

Lemma dim_with_linearized_euler_op b (s : Problem) : dim (with_linearized_euler_op E b s) = dim s.
Proof. reflexivity. Qed.

Lemma parameters_with_linearized_euler_op b (s : Problem) : parameters (with_linearized_euler_op E b s) = parameters s.
Proof. reflexivity. Qed.

Lemma solutions_with_linearized_euler_op b (s : Problem) : solutions (with_linearized_euler_op E b s) = solutions s.
Proof. reflexivity. Qed.

Lemma tmp_solutions_with_linearized_euler_op b (s : Problem) : tmp_solutions (with_linearized_euler_op E b s) = tmp_solutions s.
Proof. reflexivity. Qed.

Lemma time_control_with_linearized_euler_op b (s : Problem) : time_control (with_linearized_euler_op E b s) = time_control s.
Proof. reflexivity. Qed.

Lemma triangulation_with_linearized_euler_op b (s : Problem) : triangulation (with_linearized_euler_op E b s) = triangulation s.
Proof. reflexivity. Qed.

Lemma linearized_euler_op_with_linearized_euler_op b (s : Problem) : linearized_euler_op (with_linearized_euler_op E b s) = b.
Proof. reflexivity. Qed.

Lemma maximal_cellwise_error_init_with_linearized_euler_op b (s : Problem) : maximal_cellwise_error_init (with_linearized_euler_op E b s) = maximal_cellwise_error_init s.
Proof. reflexivity. Qed.

Lemma last_error_val_with_linearized_euler_op b (s : Problem) : last_error_val (with_linearized_euler_op E b s) = last_error_val s.
Proof. reflexivity. Qed.

Lemma first_error_val_with_linearized_euler_op b (s : Problem) : first_error_val (with_linearized_euler_op E b s) = first_error_val s.
Proof. reflexivity. Qed.

Lemma first_mangnitude_val_with_linearized_euler_op b (s : Problem) : first_mangnitude_val (with_linearized_euler_op E b s) = first_mangnitude_val s.
Proof. reflexivity. Qed.

Lemma log_with_linearized_euler_op b (s : Problem) : log (with_linearized_euler_op E b s) = log s.
Proof. reflexivity. Qed.

Lemma dim_with_maximal_cellwise_error_init v (s : Problem) : dim (with_maximal_cellwise_error_init E v s) = dim s.
Proof. reflexivity. Qed.

Lemma parameters_with_maximal_cellwise_error_init v (s : Problem) : parameters (with_maximal_cellwise_error_init E v s) = parameters s.
Proof. reflexivity. Qed.

Lemma solutions_with_maximal_cellwise_error_init v (s : Problem) : solutions (with_maximal_cellwise_error_init E v s) = solutions s.
Proof. reflexivity. Qed.

Lemma tmp_solutions_with_maximal_cellwise_error_init v (s : Problem) : tmp_solutions (with_maximal_cellwise_error_init E v s) = tmp_solutions s.
Proof. reflexivity. Qed.

Lemma time_control_with_maximal_cellwise_error_init v (s : Problem) : time_control (with_maximal_cellwise_error_init E v s) = time_control s.
Proof. reflexivity. Qed.

Lemma triangulation_with_maximal_cellwise_error_init v (s : Problem) : triangulation (with_maximal_cellwise_error_init E v s) = triangulation s.
Proof. reflexivity. Qed.

Lemma linearized_euler_op_with_maximal_cellwise_error_init v (s : Problem) : linearized_euler_op (with_maximal_cellwise_error_init E v s) = linearized_euler_op s.
Proof. reflexivity. Qed.

Lemma maximal_cellwise_error_init_with_maximal_cellwise_error_init v (s : Problem) : maximal_cellwise_error_init (with_maximal_cellwise_error_init E v s) = v.
Proof. reflexivity. Qed.

Lemma last_error_val_with_maximal_cellwise_error_init v (s : Problem) : last_error_val (with_maximal_cellwise_error_init E v s) = last_error_val s.
Proof. reflexivity. Qed.

Lemma first_error_val_with_maximal_cellwise_error_init v (s : Problem) : first_error_val (with_maximal_cellwise_error_init E v s) = first_error_val s.
Proof. reflexivity. Qed.

Lemma first_mangnitude_val_with_maximal_cellwise_error_init v (s : Problem) : first_mangnitude_val (with_maximal_cellwise_error_init E v s) = first_mangnitude_val s.
Proof. reflexivity. Qed.

Lemma log_with_maximal_cellwise_error_init v (s : Problem) : log (with_maximal_cellwise_error_init E v s) = log s.
Proof. reflexivity. Qed.

Lemma dim_with_last_error_val v (s : Problem) : dim (with_last_error_val E v s) = dim s.
Proof. reflexivity. Qed.

Lemma parameters_with_last_error_val v (s : Problem) : parameters (with_last_error_val E v s) = parameters s.
Proof. reflexivity. Qed.

Lemma solutions_with_last_error_val v (s : Problem) : solutions (with_last_error_val E v s) = solutions s.
Proof. reflexivity. Qed.

Lemma tmp_solutions_with_last_error_val v (s : Problem) : tmp_solutions (with_last_error_val E v s) = tmp_solutions s.
Proof. reflexivity. Qed.

Lemma time_control_with_last_error_val v (s : Problem) : time_control (with_last_error_val E v s) = time_control s.
Proof. reflexivity. Qed.

Lemma triangulation_with_last_error_val v (s : Problem) : triangulation (with_last_error_val E v s) = triangulation s.
Proof. reflexivity. Qed.

Lemma linearized_euler_op_with_last_error_val v (s : Problem) : linearized_euler_op (with_last_error_val E v s) = linearized_euler_op s.
Proof. reflexivity. Qed.

Lemma maximal_cellwise_error_init_with_last_error_val v (s : Problem) : maximal_cellwise_error_init (with_last_error_val E v s) = maximal_cellwise_error_init s.
Proof. reflexivity. Qed.

Lemma last_error_val_with_last_error_val v (s : Problem) : last_error_val (with_last_error_val E v s) = v.
Proof. reflexivity. Qed.

Lemma first_error_val_with_last_error_val v (s : Problem) : first_error_val (with_last_error_val E v s) = first_error_val s.
Proof. reflexivity. Qed.

Lemma first_mangnitude_val_with_last_error_val v (s : Problem) : first_mangnitude_val (with_last_error_val E v s) = first_mangnitude_val s.
Proof. reflexivity. Qed.

Lemma log_with_last_error_val v (s : Problem) : log (with_last_error_val E v s) = log s.
Proof. reflexivity. Qed.

Lemma dim_with_first_error v mag (s : Problem) : dim (with_first_error E v mag s) = dim s.
Proof. reflexivity. Qed.

Lemma parameters_with_first_error v mag (s : Problem) : parameters (with_first_error E v mag s) = parameters s.
Proof. reflexivity. Qed.

Lemma solutions_with_first_error v mag (s : Problem) : solutions (with_first_error E v mag s) = solutions s.
Proof. reflexivity. Qed.

Lemma tmp_solutions_with_first_error v mag (s : Problem) : tmp_solutions (with_first_error E v mag s) = tmp_solutions s.
Proof. reflexivity. Qed.

Lemma time_control_with_first_error v mag (s : Problem) : time_control (with_first_error E v mag s) = time_control s.
Proof. reflexivity. Qed.

Lemma triangulation_with_first_error v mag (s : Problem) : triangulation (with_first_error E v mag s) = triangulation s.
Proof. reflexivity. Qed.

Lemma linearized_euler_op_with_first_error v mag (s : Problem) : linearized_euler_op (with_first_error E v mag s) = linearized_euler_op s.
Proof. reflexivity. Qed.

Lemma maximal_cellwise_error_init_with_first_error v mag (s : Problem) : maximal_cellwise_error_init (with_first_error E v mag s) = maximal_cellwise_error_init s.
Proof. reflexivity. Qed.

Lemma last_error_val_with_first_error v mag (s : Problem) : last_error_val (with_first_error E v mag s) = last_error_val s.
Proof. reflexivity. Qed.

Lemma first_error_val_with_first_error v mag (s : Problem) : first_error_val (with_first_error E v mag s) = v.
Proof. reflexivity. Qed.

Lemma first_mangnitude_val_with_first_error v mag (s : Problem) : first_mangnitude_val (with_first_error E v mag s) = mag.
Proof. reflexivity. Qed.

Lemma log_with_first_error v mag (s : Problem) : log (with_first_error E v mag s) = log s.
Proof. reflexivity. Qed.


(** The same for the operations of [TimeControl]. *)

Lemma tc_time_set_time_step dt (tc : TimeControl) : tc_time (set_time_step dt tc) = tc_time tc.
Proof. reflexivity. Qed.

Lemma tc_step_number_set_time_step dt (tc : TimeControl) : tc_step_number (set_time_step dt tc) = tc_step_number tc.
Proof. reflexivity. Qed.

Lemma tc_time_step_set_time_step dt (tc : TimeControl) : tc_time_step (set_time_step dt tc) = dt.
Proof. reflexivity. Qed.

Lemma tc_final_time_set_time_step dt (tc : TimeControl) : tc_final_time (set_time_step dt tc) = tc_final_time tc.
Proof. reflexivity. Qed.

Lemma tc_output_every_set_time_step dt (tc : TimeControl) : tc_output_every (set_time_step dt tc) = tc_output_every tc.
Proof. reflexivity. Qed.

Lemma tc_max_steps_set_time_step dt (tc : TimeControl) : tc_max_steps (set_time_step dt tc) = tc_max_steps tc.
Proof. reflexivity. Qed.

Lemma tc_time_set_time t (tc : TimeControl) : tc_time (set_time t tc) = t.
Proof. reflexivity. Qed.

Lemma tc_step_number_set_time t (tc : TimeControl) : tc_step_number (set_time t tc) = tc_step_number tc.
Proof. reflexivity. Qed.

Lemma tc_time_step_set_time t (tc : TimeControl) : tc_time_step (set_time t tc) = tc_time_step tc.
Proof. reflexivity. Qed.

Lemma tc_final_time_set_time t (tc : TimeControl) : tc_final_time (set_time t tc) = tc_final_time tc.
Proof. reflexivity. Qed.

Lemma tc_output_every_set_time t (tc : TimeControl) : tc_output_every (set_time t tc) = tc_output_every tc.
Proof. reflexivity. Qed.

Lemma tc_max_steps_set_time t (tc : TimeControl) : tc_max_steps (set_time t tc) = tc_max_steps tc.
Proof. reflexivity. Qed.

Lemma tc_time_advance_time_step (tc : TimeControl) : tc_time (advance_time_step tc) = (tc_time tc + tc_time_step tc)%float.
Proof. reflexivity. Qed.

Lemma tc_step_number_advance_time_step (tc : TimeControl) : tc_step_number (advance_time_step tc) = S (tc_step_number tc).
Proof. reflexivity. Qed.

Lemma tc_time_step_advance_time_step (tc : TimeControl) : tc_time_step (advance_time_step tc) = tc_time_step tc.
Proof. reflexivity. Qed.

Lemma tc_final_time_advance_time_step (tc : TimeControl) : tc_final_time (advance_time_step tc) = tc_final_time tc.
Proof. reflexivity. Qed.

Lemma tc_output_every_advance_time_step (tc : TimeControl) : tc_output_every (advance_time_step tc) = tc_output_every tc.
Proof. reflexivity. Qed.

Lemma tc_max_steps_advance_time_step (tc : TimeControl) : tc_max_steps (advance_time_step tc) = tc_max_steps tc.
Proof. reflexivity. Qed.



Hint Rewrite
  @dim_emit
  @parameters_emit
  @solutions_emit
  @tmp_solutions_emit
  @time_control_emit
  @triangulation_emit
  @linearized_euler_op_emit
  @maximal_cellwise_error_init_emit
  @last_error_val_emit
  @first_error_val_emit
  @first_mangnitude_val_emit
  @log_emit
  @dim_with_solutions
  @parameters_with_solutions
  @solutions_with_solutions
  @tmp_solutions_with_solutions
  @time_control_with_solutions
  @triangulation_with_solutions
  @linearized_euler_op_with_solutions
  @maximal_cellwise_error_init_with_solutions
  @last_error_val_with_solutions
  @first_error_val_with_solutions
  @first_mangnitude_val_with_solutions
  @log_with_solutions
  @dim_with_tmp_solutions
  @parameters_with_tmp_solutions
  @solutions_with_tmp_solutions
  @tmp_solutions_with_tmp_solutions
  @time_control_with_tmp_solutions
  @triangulation_with_tmp_solutions
  @linearized_euler_op_with_tmp_solutions
  @maximal_cellwise_error_init_with_tmp_solutions
  @last_error_val_with_tmp_solutions
  @first_error_val_with_tmp_solutions
  @first_mangnitude_val_with_tmp_solutions
  @log_with_tmp_solutions
  @dim_with_time_control
  @parameters_with_time_control
  @solutions_with_time_control
  @tmp_solutions_with_time_control
  @time_control_with_time_control
  @triangulation_with_time_control
  @linearized_euler_op_with_time_control
  @maximal_cellwise_error_init_with_time_control
  @last_error_val_with_time_control
  @first_error_val_with_time_control
  @first_mangnitude_val_with_time_control
  @log_with_time_control
  @dim_with_triangulation
  @parameters_with_triangulation
  @solutions_with_triangulation
  @tmp_solutions_with_triangulation
  @time_control_with_triangulation
  @triangulation_with_triangulation
  @linearized_euler_op_with_triangulation
  @maximal_cellwise_error_init_with_triangulation
  @last_error_val_with_triangulation
  @first_error_val_with_triangulation
  @first_mangnitude_val_with_triangulation
  @log_with_triangulation
  @dim_with_linearized_euler_op
  @parameters_with_linearized_euler_op
  @solutions_with_linearized_euler_op
  @tmp_solutions_with_linearized_euler_op
  @time_control_with_linearized_euler_op
  @triangulation_with_linearized_euler_op
  @linearized_euler_op_with_linearized_euler_op
  @maximal_cellwise_error_init_with_linearized_euler_op
  @last_error_val_with_linearized_euler_op
  @first_error_val_with_linearized_euler_op
  @first_mangnitude_val_with_linearized_euler_op
  @log_with_linearized_euler_op
  @dim_with_maximal_cellwise_error_init
  @parameters_with_maximal_cellwise_error_init
  @solutions_with_maximal_cellwise_error_init
  @tmp_solutions_with_maximal_cellwise_error_init
  @time_control_with_maximal_cellwise_error_init
  @triangulation_with_maximal_cellwise_error_init
  @linearized_euler_op_with_maximal_cellwise_error_init
  @maximal_cellwise_error_init_with_maximal_cellwise_error_init
  @last_error_val_with_maximal_cellwise_error_init
  @first_error_val_with_maximal_cellwise_error_init
  @first_mangnitude_val_with_maximal_cellwise_error_init
  @log_with_maximal_cellwise_error_init
  @dim_with_last_error_val
  @parameters_with_last_error_val
  @solutions_with_last_error_val
  @tmp_solutions_with_last_error_val
  @time_control_with_last_error_val
  @triangulation_with_last_error_val
  @linearized_euler_op_with_last_error_val
  @maximal_cellwise_error_init_with_last_error_val
  @last_error_val_with_last_error_val
  @first_error_val_with_last_error_val
  @first_mangnitude_val_with_last_error_val
  @log_with_last_error_val
  @dim_with_first_error
  @parameters_with_first_error
  @solutions_with_first_error
  @tmp_solutions_with_first_error
  @time_control_with_first_error
  @triangulation_with_first_error
  @linearized_euler_op_with_first_error
  @maximal_cellwise_error_init_with_first_error
  @last_error_val_with_first_error
  @first_error_val_with_first_error
  @first_mangnitude_val_with_first_error
  @log_with_first_error
  @tc_time_set_time_step
  @tc_step_number_set_time_step
  @tc_time_step_set_time_step
  @tc_final_time_set_time_step
  @tc_output_every_set_time_step
  @tc_max_steps_set_time_step
  @tc_time_set_time
  @tc_step_number_set_time
  @tc_time_step_set_time
  @tc_final_time_set_time
  @tc_output_every_set_time
  @tc_max_steps_set_time
  @tc_time_advance_time_step
  @tc_step_number_advance_time_step
  @tc_time_step_advance_time_step
  @tc_final_time_advance_time_step
  @tc_output_every_advance_time_step
  @tc_max_steps_advance_time_step
  : problem.


Ltac fields := autorewrite with problem.
Ltac fields_in H := autorewrite with problem in H.


Lemma frame_refl (s : Problem) : frame s s.
Proof. repeat split. Qed.

Lemma frame_trans (s1 s2 s3 : Problem) : frame s1 s2 -> frame s2 s3 -> frame s1 s3.
Proof.
  unfold frame. intros (A1 & A2 & A3 & A4) (B1 & B2 & B3 & B4).
  repeat split; congruence.
Qed.

Lemma quiet_step_refl (s : Problem) : quiet_step s s.
Proof.
  unfold quiet_step. split; [apply frame_refl |].
  do 6 (split; [reflexivity |]).
  exists []. rewrite app_nil_r. split; reflexivity.
Qed.

Lemma quiet_step_trans (s1 s2 s3 : Problem) :
  quiet_step s1 s2 -> quiet_step s2 s3 -> quiet_step s1 s3.
Proof.
  intros (F1 & A1 & A2 & A3 & A4 & A5 & A6 & l1 & L1 & Q1)
         (F2 & B1 & B2 & B3 & B4 & B5 & B6 & l2 & L2 & Q2).
  split; [exact (frame_trans _ _ _ F1 F2) |].
  do 6 (split; [congruence |]).
  exists (l1 ++ l2). split.
  - rewrite L2, L1, app_assoc. reflexivity.
  - apply quiet_app; assumption.
Qed.

(** Closes [quiet_step s t] once [t] is a chain of setters over [s]. *)
Ltac quiet_by_projection :=
  unfold quiet_step, frame; cbv zeta; fields;
  split; [repeat split |];
  do 6 (split; [reflexivity |]);
  eexists; split; [rewrite <- ?app_assoc; reflexivity | reflexivity].

Lemma make_grid_quiet (s : Problem) : quiet_step s (make_grid E s).
Proof. unfold make_grid. quiet_by_projection. Qed.

Lemma make_dofs_quiet (s : Problem) : quiet_step s (make_dofs E s).
Proof. unfold make_dofs. quiet_by_projection. Qed.

Lemma project_initial_quiet (s : Problem) : quiet_step s (project_initial E s).
Proof. unfold project_initial. quiet_by_projection. Qed.

Lemma make_dofs_log (s : Problem) :
  log (make_dofs E s) =
  log s ++ [ Ev_distribute_dofs;
             Ev_set_time_step (compute_time_step_size E (triangulation s) (parameters s));
             Ev_operator_setup; Ev_initialize_dof_vector; Ev_reinit_tmp_solutions ].
Proof.
  unfold make_dofs. cbv zeta. fields. rewrite <- !app_assoc. reflexivity.
Qed.

(** [make_dofs] member by member. *)
Lemma dim_make_dofs (s : Problem) :
  dim (make_dofs E s) = dim s.
Proof. unfold make_dofs. cbv zeta. fields. reflexivity. Qed.

Lemma parameters_make_dofs (s : Problem) :
  parameters (make_dofs E s) = parameters s.
Proof. unfold make_dofs. cbv zeta. fields. reflexivity. Qed.

Lemma tmp_solutions_make_dofs (s : Problem) :
  tmp_solutions (make_dofs E s) = initialize_dof_vector E (triangulation s).
Proof. unfold make_dofs. cbv zeta. fields. reflexivity. Qed.

Lemma solutions_make_dofs (s : Problem) :
  solutions (make_dofs E s) = initialize_dof_vector E (triangulation s).
Proof. unfold make_dofs. cbv zeta. fields. reflexivity. Qed.

Lemma time_control_make_dofs (s : Problem) :
  time_control (make_dofs E s) = set_time_step (compute_time_step_size E (triangulation s) (parameters s)) (time_control s).
Proof. unfold make_dofs. cbv zeta. fields. reflexivity. Qed.

Lemma triangulation_make_dofs (s : Problem) :
  triangulation (make_dofs E s) = triangulation s.
Proof. unfold make_dofs. cbv zeta. fields. reflexivity. Qed.

Lemma linearized_euler_op_make_dofs (s : Problem) :
  linearized_euler_op (make_dofs E s) = linearized_euler_op s.
Proof. unfold make_dofs. cbv zeta. fields. reflexivity. Qed.

Lemma maximal_cellwise_error_init_make_dofs (s : Problem) :
  maximal_cellwise_error_init (make_dofs E s) = maximal_cellwise_error_init s.
Proof. unfold make_dofs. cbv zeta. fields. reflexivity. Qed.

Lemma last_error_val_make_dofs (s : Problem) :
  last_error_val (make_dofs E s) = last_error_val s.
Proof. unfold make_dofs. cbv zeta. fields. reflexivity. Qed.

Lemma first_error_val_make_dofs (s : Problem) :
  first_error_val (make_dofs E s) = first_error_val s.
Proof. unfold make_dofs. cbv zeta. fields. reflexivity. Qed.

Lemma first_mangnitude_val_make_dofs (s : Problem) :
  first_mangnitude_val (make_dofs E s) = first_mangnitude_val s.
Proof. unfold make_dofs. cbv zeta. fields. reflexivity. Qed.

Hint Rewrite
  @make_dofs_log
  @dim_make_dofs
  @parameters_make_dofs
  @tmp_solutions_make_dofs
  @solutions_make_dofs
  @time_control_make_dofs
  @triangulation_make_dofs
  @linearized_euler_op_make_dofs
  @maximal_cellwise_error_init_make_dofs
  @last_error_val_make_dofs
  @first_error_val_make_dofs
  @first_mangnitude_val_make_dofs
  : problem.

(** [adapt_mesh] fails only in a build with p4est in one dimension. *)
Lemma adapt_mesh_returns (s : Problem) :
  DEAL_II_WITH_P4EST E = false \/ (1 <? dim s)%Z = true ->
  exists s', adapt_mesh E s = Ok s'.
Proof.
  intros H. unfold adapt_mesh. cbv zeta. fields.
  destruct (DEAL_II_WITH_P4EST E).
  - destruct H as [H | H]; [discriminate |]. rewrite H. eexists. reflexivity.
  - eexists. reflexivity.
Qed.

Lemma adapt_mesh_quiet (s s' : Problem) :
  adapt_mesh E s = Ok s' -> quiet_step s s'.
Proof.
  unfold adapt_mesh. cbv zeta. intros H.
  destruct (DEAL_II_WITH_P4EST E).
  - match type of H with (if ?c then _ else _) = _ => destruct c end;
      [| discriminate].
    injection H as <-. quiet_by_projection.
  - injection H as <-. quiet_by_projection.
Qed.

Lemma adapt_mesh_trace (s s' : Problem) :
  adapt_mesh E s = Ok s' ->
  let dt := compute_time_step_size E (triangulation s') (parameters s') in
  let before := prepare_coarsening_and_refinement E (flagged_cells E s) in
  log s' = log s ++ adaptation_order (DEAL_II_WITH_P4EST E) dt /\
  tc_time_step (time_control s') = dt /\
  triangulation s' = execute_coarsening_and_refinement E before /\
  solutions s' = interpolate E (solutions s) before (triangulation s').
Proof.
  unfold adapt_mesh, adaptation_order. cbv zeta. intros H.
  destruct (DEAL_II_WITH_P4EST E).
  - match type of H with (if ?c then _ else _) = _ => destruct c end;
      [| discriminate].
    injection H as <-. fields. rewrite <- !app_assoc. repeat split.
  - injection H as <-. fields. rewrite <- !app_assoc. repeat split.
Qed.

(** The guarded block of [output_results], case by case. *)
Lemma stability_monitor_cases (mag : double) (s : Problem) :
  let s' := stability_monitor E mag s in
  let ft := final_time (parameters s) in
  last_error_val s' = last_error_val s /\
  frame s s' /\
  maximal_cellwise_error_init s' = maximal_cellwise_error_init s /\
  tc_step_number (time_control s') = tc_step_number (time_control s) /\
  (cfl_stability_analysis (parameters s) = false -> s' = s) /\
  (cfl_stability_analysis (parameters s) = true ->
   let latch := (first_error_val s <? 0.0)%float in
   let div := negb (cfl_stable E s') in
   first_error_val s' = (if latch then last_error_val s else first_error_val s) /\
   first_mangnitude_val s' = (if latch then mag else first_mangnitude_val s) /\
   time_control s' = (if div then set_time ft (time_control s) else time_control s) /\
   log s' = log s
            ++ (if latch then [Ev_write_first_error (last_error_val s) mag] else [])
            ++ (if div then [Ev_set_time ft] else [])).
Proof.
  cbv zeta. unfold stability_monitor, cfl_stable, frame.
  destruct (cfl_stability_analysis (parameters s)).
  - cbv zeta.
    destruct (first_error_val s <? 0)%float;
      match goal with |- context [if (?c) then _ else _] => destruct c eqn:Hc end;
      fields; fields_in Hc; rewrite ?Hc; cbn [negb]; rewrite <- ?app_assoc, ?app_nil_r;
      repeat split; try discriminate; intros _; repeat split.
  - repeat split; try discriminate.
Qed.

(** [output_results], case by case. *)
Lemma output_results_cases (s : Problem) :
  let err := solution_norm_rho E s in
  let mag := density_mag E s in
  let s' := output_results E s in
  let ft := final_time (parameters s) in
  last_error_val s' = err /\
  frame s s' /\
  maximal_cellwise_error_init s' = maximal_cellwise_error_init s /\
  tc_step_number (time_control s') = tc_step_number (time_control s) /\
  (cfl_stability_analysis (parameters s) = false ->
   first_error_val s' = first_error_val s /\
   first_mangnitude_val s' = first_mangnitude_val s /\
   time_control s' = time_control s /\
   log s' = log s ++ [Ev_output_results; Ev_write_last_error err]) /\
  (cfl_stability_analysis (parameters s) = true ->
   let latch := (first_error_val s <? 0.0)%float in
   let div := negb (cfl_stable E s') in
   first_error_val s' = (if latch then err else first_error_val s) /\
   first_mangnitude_val s' = (if latch then mag else first_mangnitude_val s) /\
   time_control s' = (if div then set_time ft (time_control s) else time_control s) /\
   log s' = log s ++ [Ev_output_results; Ev_write_last_error err]
                  ++ (if latch then [Ev_write_first_error err mag] else [])
                  ++ (if div then [Ev_set_time ft] else [])).
Proof.
  cbv zeta. unfold output_results, observe.
  set (s1 := emit E (Ev_write_last_error (solution_norm_rho E s))
               (with_last_error_val E (solution_norm_rho E s)
                  (emit E Ev_output_results s))).
  destruct (stability_monitor_cases (density_mag E s) s1)
    as (Hl & (F1 & F2 & F3 & F4) & Hm & Hs & Hoff & Hon).
  unfold s1 in Hl, F1, F2, F3, F4, Hm, Hs, Hoff, Hon.
  fields_in Hl. fields_in F1. fields_in F2. fields_in F3. fields_in F4.
  fields_in Hm. fields_in Hs. fields_in Hoff. fields_in Hon.
  fold s1 in Hl, F1, F2, F3, F4, Hm, Hs, Hoff, Hon.
  split; [exact Hl |]. split; [repeat split; assumption |].
  split; [exact Hm |]. split; [exact Hs |]. split.
  - intros Hflag. rewrite (Hoff Hflag). unfold s1. fields.
    rewrite <- !app_assoc. repeat split.
  - intros Hflag. destruct (Hon Hflag) as (H1 & H2 & H3 & H4).
    rewrite H1, H2, H3, H4. rewrite <- !app_assoc. repeat split.
Qed.

(** What one output evaluation adds to the trace. *)
Lemma output_results_facts (s : Problem) :
  let s' := output_results E s in
  frame s s' /\
  maximal_cellwise_error_init s' = maximal_cellwise_error_init s /\
  tc_step_number (time_control s') = tc_step_number (time_control s) /\
  exists l, log s' = log s ++ l /\
    count is_capture l = 0 /\
    count is_last_error_write l = 1 /\
    count is_output l = 1 /\
    ((first_error_val s <? 0.0)%float = false ->
     first_error_val s' = first_error_val s /\
     first_mangnitude_val s' = first_mangnitude_val s /\
     count is_first_error_write l = 0).
Proof.
  cbv zeta.
  destruct (output_results_cases s) as (_ & Hf & Hm & Hs & Hoff & Hon).
  split; [exact Hf |]. split; [exact Hm |]. split; [exact Hs |].
  destruct (cfl_stability_analysis (parameters s)).
  - destruct (Hon eq_refl) as (H1 & H2 & _ & H4). clear Hon Hoff.
    eexists. split; [exact H4 |].
    destruct (first_error_val s <? 0)%float;
      destruct (negb (cfl_stable E (output_results E s)));
      (split; [reflexivity |]); (split; [reflexivity |]); (split; [reflexivity |]);
      intros Hl; try discriminate;
      (split; [exact H1 |]); (split; [exact H2 | reflexivity]).
  - destruct (Hoff eq_refl) as (H1 & H2 & _ & H4). clear Hon Hoff.
    eexists. split; [exact H4 |].
    split; [reflexivity |]. split; [reflexivity |]. split; [reflexivity |].
    intros _. split; [exact H1 |]. split; [exact H2 | reflexivity].
Qed.

Lemma integrate_step_facts (integrator : IntegratorType) (s : Problem) :
  let s1 := integrate_step E integrator s in
  frame s s1 /\
  first_error_val s1 = first_error_val s /\
  first_mangnitude_val s1 = first_mangnitude_val s /\
  last_error_val s1 = last_error_val s /\
  maximal_cellwise_error_init s1 = maximal_cellwise_error_init s /\
  tc_step_number (time_control s1) = S (tc_step_number (time_control s)) /\
  exists l, log s1 = log s ++ l /\ forallb quiet l = true.
Proof.
  unfold integrate_step, frame. cbv zeta. fields.
  split; [repeat split |].
  do 5 (split; [reflexivity |]).
  eexists. split; reflexivity.
Qed.

Lemma adapt_on_interval_quiet (s s' : Problem) :
  adapt_on_interval E s = Ok s' -> quiet_step s s'.
Proof.
  unfold adapt_on_interval. intros H.
  destruct (0 <? n_adaptive_refinements (parameters s))%nat;
    [| injection H as <-; apply quiet_step_refl].
  destruct (adaptive_refinement_interval (parameters s) =? 0)%nat;
    [discriminate H |].
  destruct (_ =? 0)%nat.
  - apply adapt_mesh_quiet. exact H.
  - injection H as <-. apply quiet_step_refl.
Qed.

(** One pass of the time loop: the step itself and the adaptation are
    quiet and advance the step counter by one; an output evaluation follows
    if the pass ends on a tick. *)
Lemma time_step_cases (integrator : IntegratorType) (s s' : Problem) :
  time_step E integrator s = Ok s' ->
  exists s2,
    frame s s2 /\
    first_error_val s2 = first_error_val s /\
    first_mangnitude_val s2 = first_mangnitude_val s /\
    last_error_val s2 = last_error_val s /\
    maximal_cellwise_error_init s2 = maximal_cellwise_error_init s /\
    tc_step_number (time_control s2) = S (tc_step_number (time_control s)) /\
    (exists l, log s2 = log s ++ l /\ forallb quiet l = true) /\
    s' = if at_tick E (time_control s2) then output_results E s2 else s2.
Proof.
  unfold time_step. intros H.
  destruct (adapt_on_interval E (integrate_step E integrator s)) as [s2 | |] eqn:Hr;
    cbn [bind] in H; [| discriminate | discriminate].
  injection H as <-. exists s2.
  apply adapt_on_interval_quiet in Hr.
  destruct Hr as (F & Q1 & Q2 & Q3 & Q4 & _ & Q6 & l2 & L2 & QL2).
  destruct (integrate_step_facts integrator s)
    as (F1 & A1 & A2 & A3 & A4 & A5 & l1 & L1 & QL1).
  split; [exact (frame_trans _ _ _ F1 F) |].
  do 5 (split; [congruence |]).
  split; [| reflexivity].
  exists (l1 ++ l2). split.
  - rewrite L2, L1, app_assoc. reflexivity.
  - apply quiet_app; assumption.
Qed.

Lemma time_step_facts (integrator : IntegratorType) (s s' : Problem) :
  time_step E integrator s = Ok s' ->
  frame s s' /\
  maximal_cellwise_error_init s' = maximal_cellwise_error_init s /\
  tc_step_number (time_control s') = S (tc_step_number (time_control s)) /\
  exists l, log s' = log s ++ l /\
    count is_capture l = 0 /\
    count is_last_error_write l = count is_output l /\
    ((first_error_val s <? 0.0)%float = false ->
     first_error_val s' = first_error_val s /\
     first_mangnitude_val s' = first_mangnitude_val s /\
     count is_first_error_write l = 0).
Proof.
  intros H. apply time_step_cases in H.
  destruct H as (s2 & F & A1 & A2 & A3 & A4 & A5 & (l & L & Q) & ->).
  destruct (quiet_count l Q) as (C1 & C2 & C3 & C4 & C5).
  destruct (at_tick E (time_control s2)).
  - destruct (output_results_facts s2)
      as (F' & B1 & B2 & l' & L' & D1 & D2 & D3 & D4).
    split; [exact (frame_trans _ _ _ F F') |].
    split; [congruence |]. split; [congruence |].
    exists (l ++ l'). split; [rewrite L', L, app_assoc; reflexivity |].
    rewrite !count_app. split; [lia |]. split; [lia |].
    intros Hl. rewrite <- A1 in Hl. destruct (D4 Hl) as (G1 & G2 & G3).
    split; [congruence |]. split; [congruence | lia].
  - split; [exact F |]. split; [congruence |]. split; [congruence |].
    exists l. split; [exact L |]. split; [exact C4 |]. split; [lia |].
    intros _. split; [congruence |]. split; [congruence | exact C1].
Qed.

Lemma time_loop_facts (integrator : IntegratorType) (fuel : nat) :
  forall s s' : Problem,
  time_loop E integrator fuel s = Ok s' ->
  frame s s' /\
  maximal_cellwise_error_init s' = maximal_cellwise_error_init s /\
  exists l, log s' = log s ++ l /\
    count is_capture l = 0 /\
    count is_last_error_write l = count is_output l /\
    ((first_error_val s <? 0.0)%float = false ->
     first_error_val s' = first_error_val s /\
     first_mangnitude_val s' = first_mangnitude_val s /\
     count is_first_error_write l = 0).
Proof.
  assert (Hstop : forall s : Problem,
    frame s s /\
    maximal_cellwise_error_init s = maximal_cellwise_error_init s /\
    exists l, log s = log s ++ l /\
      count is_capture l = 0 /\
      count is_last_error_write l = count is_output l /\
      ((first_error_val s <? 0.0)%float = false ->
       first_error_val s = first_error_val s /\
       first_mangnitude_val s = first_mangnitude_val s /\
       count is_first_error_write l = 0)).
  { intros s. split; [apply frame_refl |]. split; [reflexivity |].
    exists []. rewrite app_nil_r. split; [reflexivity |].
    split; [reflexivity |]. split; [reflexivity |].
    intros _. split; [reflexivity |]. split; reflexivity. }
  induction fuel as [| fuel IH]; intros s s' H; cbn [time_loop] in H.
  - destruct (done (time_control s)); injection H as <-; apply Hstop.
  - destruct (done (time_control s)); [injection H as <-; apply Hstop |].
    destruct (time_step E integrator s) as [s1 | |] eqn:Hs1; cbn [bind] in H;
      [| discriminate | discriminate].
    apply time_step_facts in Hs1.
    destruct Hs1 as (F & A1 & _ & l & L & C1 & C2 & C3).
    destruct (IH _ _ H) as (F' & B1 & l' & L' & D1 & D2 & D3).
    split; [exact (frame_trans _ _ _ F F') |].
    split; [congruence |].
    exists (l ++ l'). split; [rewrite L', L, app_assoc; reflexivity |].
    rewrite !count_app. split; [lia |]. split; [lia |].
    intros Hl. destruct (C3 Hl) as (E1 & E2 & E3).
    rewrite <- E1 in Hl. destruct (D3 Hl) as (G1 & G2 & G3).
    split; [congruence |]. split; [congruence | lia].
Qed.

(** The fuel [run] passes is enough: when the loop stops, [done ()] holds. *)
Lemma time_loop_done (integrator : IntegratorType) (fuel : nat) :
  forall s s' : Problem,
  tc_max_steps (time_control s) <= tc_step_number (time_control s) + fuel ->
  time_loop E integrator fuel s = Ok s' ->
  done (time_control s') = true.
Proof.
  induction fuel as [| fuel IH]; intros s s' Hfuel H; cbn [time_loop] in H.
  - destruct (done (time_control s)) eqn:Hd; injection H as <-; [exact Hd |].
    unfold done. apply orb_true_iff. right. apply Nat.leb_le. lia.
  - destruct (done (time_control s)) eqn:Hd; [injection H as <-; exact Hd |].
    destruct (time_step E integrator s) as [s1 | |] eqn:Hs1; cbn [bind] in H;
      [| discriminate | discriminate].
    apply time_step_facts in Hs1.
    destruct Hs1 as ((_ & _ & _ & Fm) & _ & Hstep & _).
    apply (IH s1 s'); [| exact H]. rewrite Fm, Hstep. lia.
Qed.

Lemma time_step_returns (integrator : IntegratorType) (s : Problem) :
  DEAL_II_WITH_P4EST E = false \/ (1 <? dim s)%Z = true ->
  cadence_defined (parameters s) = true ->
  exists s', time_step E integrator s = Ok s'.
Proof.
  intros H Hc. unfold time_step.
  assert (Hr : exists s2, adapt_on_interval E (integrate_step E integrator s) = Ok s2).
  { destruct (integrate_step_facts integrator s) as ((Hp & Hd & _) & _).
    unfold adapt_on_interval. rewrite Hp.
    unfold cadence_defined in Hc.
    destruct (n_adaptive_refinements (parameters s)) as [| n];
      [eexists; reflexivity |].
    cbn [Nat.eqb orb] in Hc. cbn [Nat.ltb Nat.leb].
    destruct (adaptive_refinement_interval (parameters s) =? 0)%nat;
      [discriminate Hc |].
    destruct (_ =? 0)%nat; [| eexists; reflexivity].
    apply adapt_mesh_returns. rewrite Hd. exact H. }
  destruct Hr as [s2 Hs2]. rewrite Hs2. cbn [bind]. eexists. reflexivity.
Qed.

Lemma time_loop_returns (integrator : IntegratorType) (fuel : nat) :
  forall s : Problem,
  DEAL_II_WITH_P4EST E = false \/ (1 <? dim s)%Z = true ->
  cadence_defined (parameters s) = true ->
  exists s', time_loop E integrator fuel s = Ok s'.
Proof.
  induction fuel as [| fuel IH]; intros s H Hc; cbn [time_loop].
  - destruct (done (time_control s)); eexists; reflexivity.
  - destruct (done (time_control s)); [eexists; reflexivity |].
    destruct (time_step_returns integrator s H Hc) as [s1 Hs1].
    rewrite Hs1. cbn [bind].
    apply time_step_facts in Hs1. destruct Hs1 as ((Hp & Hd & _) & _).
    apply IH; [rewrite Hd; exact H | rewrite Hp; exact Hc].
Qed.

Lemma project_initial_log (s : Problem) :
  log (project_initial E s) = log s ++ [Ev_project_initial_field].
Proof. reflexivity. Qed.

Lemma quiet_step_untouched (s s' : Problem) : quiet_step s s' -> untouched s s'.
Proof.
  intros (F & A1 & A2 & A3 & _ & A5 & A6 & _).
  split; [exact F |]. repeat split; assumption.
Qed.

Lemma untouched_trans (s1 s2 s3 : Problem) :
  untouched s1 s2 -> untouched s2 s3 -> untouched s1 s3.
Proof.
  intros (F1 & A1 & A2 & A3 & A4 & A5) (F2 & B1 & B2 & B3 & B4 & B5).
  split; [exact (frame_trans _ _ _ F1 F2) |]. repeat split; congruence.
Qed.

Lemma capture_facts (s : Problem) :
  let v := mpi_max E (linfty_norm E
             (estimate_error E (triangulation s) (solutions s) (tmp_solutions s))) in
  let s' := capture_maximal_cellwise_error E s in
  untouched s s' /\
  triangulation s' = triangulation s /\ solutions s' = solutions s /\
  tmp_solutions s' = tmp_solutions s /\
  maximal_cellwise_error_init s' = v /\
  log s' = log s ++ [Ev_estimate_error; Ev_capture_maximal_cellwise_error v].
Proof.
  cbv zeta. unfold capture_maximal_cellwise_error, untouched, frame.
  cbv zeta. fields. rewrite <- !app_assoc. repeat split.
Qed.

Lemma adaptation_order_counts (b : bool) (dt : double) :
  forallb quiet (adaptation_order b dt) = true /\
  count is_adjust_flags (adaptation_order b dt) = 1.
Proof. destruct b; split; reflexivity. Qed.

(** The pre-refinement loop: it returns, leaves the stability record and the
    clock alone, and, when it runs at all, ends with the projection of the
    initial field followed by the capture of the reference error, after all
    its adaptations. *)
Lemma pre_refinement_facts (n : nat) :
  forall s : Problem,
  DEAL_II_WITH_P4EST E = false \/ (1 <? dim s)%Z = true ->
  exists s', pre_refinement E n s = Ok s' /\
    untouched s s' /\
    match n with
    | O => s' = s
    | S _ =>
      exists l0 v,
        log s' = log s ++ l0 ++ [Ev_project_initial_field; Ev_estimate_error;
                                  Ev_capture_maximal_cellwise_error v] /\
        forallb quiet l0 = true /\
        count is_adjust_flags l0 = n /\
        v = mpi_max E (linfty_norm E
              (estimate_error E (triangulation s') (solutions s') (tmp_solutions s'))) /\
        maximal_cellwise_error_init s' = v
    end.
Proof.
  induction n as [| n IH]; intros s Hd; cbn [pre_refinement].
  - exists s. split; [reflexivity |]. split; [| reflexivity].
    apply quiet_step_untouched, quiet_step_refl.
  - destruct (adapt_mesh_returns s Hd) as [s1 Hs1]. rewrite Hs1. cbn [bind].
    pose proof (adapt_mesh_quiet _ _ Hs1) as Q1.
    pose proof (project_initial_quiet s1) as Q2.
    pose proof (quiet_step_trans _ _ _ Q1 Q2) as Q.
    destruct (adapt_mesh_trace _ _ Hs1) as (L1 & _).
    destruct (adaptation_order_counts (DEAL_II_WITH_P4EST E)
                (compute_time_step_size E (triangulation s1) (parameters s1)))
      as (QL1 & CL1).
    set (l1 := adaptation_order _ _) in *.
    set (s2 := project_initial E s1) in *.
    assert (Hd2 : DEAL_II_WITH_P4EST E = false \/ (1 <? dim s2)%Z = true).
    { destruct Q as ((_ & Dm & _) & _). rewrite Dm. exact Hd. }
    destruct n as [| n]; cbn [Nat.eqb].
    + cbn [pre_refinement].
      destruct (capture_facts s2) as (U & T1 & T2 & T3 & M & L).
      eexists. split; [reflexivity |].
      split; [exact (untouched_trans _ _ _ (quiet_step_untouched _ _ Q) U) |].
      exists l1, (mpi_max E (linfty_norm E
                    (estimate_error E (triangulation s2) (solutions s2)
                       (tmp_solutions s2)))).
      split.
      { rewrite L. unfold s2. rewrite project_initial_log, L1, <- !app_assoc.
        reflexivity. }
      split; [exact QL1 |]. split; [exact CL1 |].
      split; [rewrite T1, T2, T3; reflexivity | exact M].
    + destruct (IH s2 Hd2) as (s' & Hs' & U & l0 & v & L & QL & CL & Hv & Hm).
      exists s'. split; [exact Hs' |].
      split; [exact (untouched_trans _ _ _ (quiet_step_untouched _ _ Q) U) |].
      exists (l1 ++ [Ev_project_initial_field] ++ l0), v.
      split.
      { rewrite L. unfold s2. rewrite project_initial_log, L1, <- !app_assoc.
        reflexivity. }
      split; [apply quiet_app; [exact QL1 | exact QL] |].
      split; [rewrite !count_app, CL1, CL; reflexivity |].
      split; [exact Hv | exact Hm].
Qed.

Lemma select_operator_supported (d : Z) (s : Problem) :
  supported E d (parameters s) = true ->
  select_operator E s = Ok (with_linearized_euler_op E true s).
Proof.
  unfold supported, select_operator. intros H.
  apply andb_prop in H. destruct H as [H _].
  apply andb_prop in H. destruct H as [Hi Hd].
  rewrite Hd. destruct (integ_type (parameters s)); try reflexivity; discriminate.
Qed.

Lemma select_integrator_supported (d : Z) (p : Parameters) :
  supported E d p = true ->
  select_integrator (integ_type p) = Ok (integ_type p).
Proof.
  unfold supported, select_integrator. intros H.
  apply andb_prop in H. destruct H as [H _].
  apply andb_prop in H. destruct H as [Hi _].
  destruct (integ_type p); try reflexivity; discriminate.
Qed.

Lemma supported_dimension (d : Z) (p : Parameters) :
  supported E d p = true ->
  DEAL_II_WITH_P4EST E = false \/ (1 <? d)%Z = true.
Proof.
  unfold supported. intros H. apply andb_prop in H. destruct H as [_ H].
  apply orb_prop in H. destruct H as [H | H]; [left | right; exact H].
  destruct (DEAL_II_WITH_P4EST E); [discriminate | reflexivity].
Qed.

(** The set-up phase of [run]: it returns for a supported configuration; the
    stability record is as constructed, the clock stands at zero with the
    configured end time and step limit, and the trace holds no output
    evaluation.  With adaptive refinement, the trace ends with the capture of
    the reference error, which is the only one and follows all adaptations. *)
Lemma initialize_facts (d : Z) (p : Parameters) :
  supported E d p = true ->
  exists s0, initialize E (LinearizedEulerProblem E d p) = Ok s0 /\
    parameters s0 = p /\ dim s0 = d /\
    first_error_val s0 = (-1.0)%float /\
    tc_final_time (time_control s0) = final_time p /\
    tc_max_steps (time_control s0) = max_time_steps p /\
    tc_step_number (time_control s0) = 0 /\
    match n_adaptive_refinements p with
    | O => forallb quiet (log s0) = true
    | S _ =>
      exists l0 v,
        log s0 = l0 ++ [Ev_project_initial_field; Ev_estimate_error;
                        Ev_capture_maximal_cellwise_error v] /\
        forallb quiet l0 = true /\
        count is_adjust_flags l0 = n_adaptive_refinements p /\
        v = mpi_max E (linfty_norm E
              (estimate_error E (triangulation s0) (solutions s0) (tmp_solutions s0))) /\
        maximal_cellwise_error_init s0 = v
    end.
Proof.
  intros Hs. unfold initialize. cbv zeta.
  set (sb := with_time_control E _ (make_grid E (LinearizedEulerProblem E d p))).
  assert (Hp : parameters sb = p).
  { unfold sb, make_grid. fields. reflexivity. }
  rewrite (select_operator_supported d sb) by (rewrite Hp; exact Hs).
  cbn [bind].
  set (se := project_initial E (make_dofs E (with_linearized_euler_op E true sb))).
  assert (He : parameters se = p /\ dim se = d /\
               first_error_val se = (-1.0)%float /\
               tc_final_time (time_control se) = final_time p /\
               tc_max_steps (time_control se) = max_time_steps p /\
               tc_step_number (time_control se) = 0 /\
               forallb quiet (log se) = true /\
               count is_adjust_flags (log se) = 0).
  { unfold se, sb, project_initial, make_grid. fields.
    unfold LinearizedEulerProblem, setup.
    cbn [parameters dim first_error_val log tc_final_time tc_max_steps
         tc_step_number].
    repeat split. }
  destruct He as (E1 & E2 & E3 & E4 & E5 & E6 & E7 & E8).
  assert (Hd : DEAL_II_WITH_P4EST E = false \/ (1 <? dim se)%Z = true).
  { rewrite E2. exact (supported_dimension d p Hs). }
  replace (n_adaptive_refinements (parameters se)) with (n_adaptive_refinements p)
    by (rewrite E1; reflexivity).
  destruct (pre_refinement_facts (n_adaptive_refinements p) se Hd)
    as (s0 & Hs0 & ((F1 & F2 & F3 & F4) & U1 & U2 & U3 & U4 & U5) & Hl).
  exists s0. split; [exact Hs0 |].
  do 6 (split; [congruence |]).
  destruct (n_adaptive_refinements p) as [| n].
  - subst s0. exact E7.
  - destruct Hl as (l0 & v & L & Q & C & Hv & Hm).
    exists (log se ++ l0), v.
    split; [rewrite L, <- app_assoc; reflexivity |].
    split; [apply quiet_app; assumption |].
    split; [rewrite count_app, E8, C; reflexivity |].
    split; [exact Hv | exact Hm].
Qed.

(** No output evaluation, no write to the stability record and no forced end
    of the run happen during the set-up phase. *)
Lemma initialize_silent (d : Z) (p : Parameters) (s0 : Problem) :
  supported E d p = true ->
  initialize E (LinearizedEulerProblem E d p) = Ok s0 ->
  count is_first_error_write (log s0) = 0 /\
  count is_last_error_write (log s0) = 0 /\
  count is_output (log s0) = 0 /\
  count is_set_time (log s0) = 0 /\
  count is_capture (log s0) = if (n_adaptive_refinements p =? 0)%nat then 0 else 1.
Proof.
  intros Hs H0.
  destruct (initialize_facts d p Hs) as (s0' & H0' & _ & _ & _ & _ & _ & _ & Hl).
  rewrite H0 in H0'. injection H0' as <-.
  destruct (n_adaptive_refinements p) as [| n]; cbn [Nat.eqb].
  - destruct (quiet_count _ Hl) as (C1 & C2 & C3 & C4 & C5). repeat split; assumption.
  - destruct Hl as (l0 & v & L & Q & _).
    destruct (quiet_count _ Q) as (C1 & C2 & C3 & C4 & C5).
    rewrite L, !count_app, C1, C2, C3, C4, C5. repeat split.
Qed.

(** [run] returns for every supported configuration whose cadence test is
    defined. *)
Lemma run_returns (d : Z) (p : Parameters) :
  supported E d p = true ->
  cadence_defined p = true ->
  exists s0 s,
    initialize E (LinearizedEulerProblem E d p) = Ok s0 /\
    run E (LinearizedEulerProblem E d p) = Ok s /\
    time_loop E (integ_type p) (max_time_steps p) (output_results E s0) = Ok s.
Proof.
  intros Hs Hc.
  destruct (initialize_facts d p Hs) as (s0 & H0 & P0 & D0 & _).
  destruct (output_results_cases s0) as (_ & (P1 & D1 & _) & _).
  destruct (time_loop_returns (integ_type p) (max_time_steps p) (output_results E s0))
    as [s Hs'].
  { rewrite D1, D0. exact (supported_dimension d p Hs). }
  { rewrite P1, P0. exact Hc. }
  exists s0, s. split; [exact H0 |]. split; [| exact Hs'].
  unfold run. rewrite H0. cbn [bind]. cbv zeta. rewrite P1, P0.
  rewrite (select_integrator_supported d p Hs). cbn [bind]. exact Hs'.
Qed.

(** The fuel [run] passes to the time loop is enough: the run ends because
    [done ()] holds. *)
Lemma run_ends_done (d : Z) (p : Parameters) :
  supported E d p = true ->
  cadence_defined p = true ->
  exists s, run E (LinearizedEulerProblem E d p) = Ok s /\
            done (time_control s) = true.
Proof.
  intros Hs Hc.
  destruct (run_returns d p Hs Hc) as (s0 & s & H0 & Hrun & Hloop).
  destruct (initialize_facts d p Hs) as (s0' & H0' & _ & _ & _ & _ & M0 & N0 & _).
  rewrite H0 in H0'. injection H0' as <-.
  destruct (output_results_cases s0) as (_ & (_ & _ & _ & M1) & _ & N1 & _).
  exists s. split; [exact Hrun |].
  apply (time_loop_done (integ_type p) (max_time_steps p) (output_results E s0) s);
    [| exact Hloop].
  rewrite M1, M0, N1, N0. lia.
Qed.

(* ================================================================= *)
(** ** The flags of an adaptation *)

Lemma adjust_flags_facts (min_level max_level : Z) (error_per_cell : list double)
    (max_init : double) (cell : Cell) :
  let cell' := adjust_flags min_level max_level error_per_cell max_init cell in
  let indicator := vector_at error_per_cell (active_cell_index cell) in
  active_cell_index cell' = active_cell_index cell /\
  is_locally_owned cell' = is_locally_owned cell /\
  level cell' = level cell /\
  (is_locally_owned cell = true ->
   ((indicator <? 0.1 * max_init)%float = true -> refine_flag_set cell' = false) /\
   ((indicator <? 0.05 * max_init)%float = true -> coarsen_flag_set cell' = true) /\
   (level cell = max_level -> refine_flag_set cell' = false) /\
   ((indicator <? 0.05 * max_init)%float = false ->
    level cell = min_level -> max_level <> min_level -> coarsen_flag_set cell' = false)).
Proof.
  cbv zeta. unfold adjust_flags.
  destruct cell as [lv rf cf own idx dist].
  cbn [is_locally_owned level refine_flag_set coarsen_flag_set active_cell_index].
  destruct own; [| repeat split; intros; discriminate].
  destruct (Z.eqb_spec lv max_level) as [Hmax | Hmax];
    destruct (Z.eqb_spec lv min_level) as [Hmin | Hmin];
    destruct rf, cf;
    cbn [andb clear_refine_flag clear_coarsen_flag set_coarsen_flag
         is_locally_owned level refine_flag_set coarsen_flag_set active_cell_index];
    destruct (vector_at error_per_cell idx <? 0.1 * max_init)%float;
    cbn [andb clear_refine_flag clear_coarsen_flag set_coarsen_flag
         is_locally_owned level refine_flag_set coarsen_flag_set active_cell_index];
    destruct (vector_at error_per_cell idx <? 0.05 * max_init)%float;
    cbn [andb clear_refine_flag clear_coarsen_flag set_coarsen_flag
         is_locally_owned level refine_flag_set coarsen_flag_set active_cell_index];
    repeat split; intros; try reflexivity; try discriminate; try congruence.
Qed.

(** The refine half of the level bounds holds: after the flag pass no locally
    owned cell at [max_level] carries a refine flag. *)
Lemma no_refine_flag_at_max_level (s : Problem) (cell : Cell) :
  In cell (flagged_cells E s) ->
  is_locally_owned cell = true ->
  level cell
  = (n_refinements (parameters s) + Z.of_nat (n_adaptive_refinements (parameters s)))%Z ->
  refine_flag_set cell = false.
Proof.
  unfold flagged_cells. intros Hin Hown Hlevel.
  apply in_map_iff in Hin. destruct Hin as (c0 & <- & _).
  match goal with
  | H : context [adjust_flags ?a ?b ?c ?m c0] |- _ =>
    destruct (adjust_flags_facts a b c m c0) as (_ & Ho & Hl & Hf)
  end.
  rewrite Ho in Hown. rewrite Hl in Hlevel.
  destruct (Hf Hown) as (_ & _ & H & _). exact (H Hlevel).
Qed.

(** C2, what the code does at the lower bound: a locally owned cell whose
    indicator is below [0.05 * maximal_cellwise_error_init] leaves the flag
    pass with its coarsen flag set even when it is at [min_level], so the
    pass does not keep coarsen flags off the cells at [min_level]. *)
Theorem coarsen_flag_at_min_level (s : Problem) (cell : Cell) :
  In cell (flagged_cells E s) ->
  is_locally_owned cell = true ->
  level cell = n_refinements (parameters s) ->
  (vector_at (error_indicators E s) (active_cell_index cell)
   <? 0.05 * maximal_cellwise_error_init s)%float = true ->
  coarsen_flag_set cell = true.
Proof.
  unfold flagged_cells. intros Hin Hown _ Hlow.
  apply in_map_iff in Hin. destruct Hin as (c0 & <- & _).
  match goal with
  | H : context [adjust_flags ?a ?b ?c ?m c0] |- _ =>
    destruct (adjust_flags_facts a b c m c0) as (Hi & Ho & _ & Hf)
  end.
  rewrite Ho in Hown. rewrite Hi in Hlow.
  destruct (Hf Hown) as (_ & H & _). exact (H Hlow).
Qed.

(** C8.  An adaptation (outside the one-dimensional build with p4est, where it
    refuses to run) makes its calls in the prescribed order: the flags, the
    snapshot of the state vector handed to the solution transfer, the mesh
    rebuild, [make_dofs] on the new mesh, the interpolation of the snapshot
    into the state vector, and last the new time-step size, computed from the
    new mesh and given to [TimeControl].  Between the start of the rebuild and
    the re-creation of the state vector on the new indexing no call takes the
    state vector as an input. *)
Theorem adapt_mesh_order (s : Problem) :
  DEAL_II_WITH_P4EST E = false \/ (1 <? dim s)%Z = true ->
  exists s', adapt_mesh E s = Ok s' /\
    let dt := compute_time_step_size E (triangulation s') (parameters s') in
    let before := prepare_coarsening_and_refinement E (flagged_cells E s) in
    log s' = log s ++ adaptation_order (DEAL_II_WITH_P4EST E) dt /\
    triangulation s' = execute_coarsening_and_refinement E before /\
    solutions s' = interpolate E (solutions s) before (triangulation s') /\
    tc_time_step (time_control s') = dt /\
    existsb reads_solutions
      (stale_window (adaptation_order (DEAL_II_WITH_P4EST E) dt)) = false.
Proof.
  intros Hd. destruct (adapt_mesh_returns s Hd) as [s' Hs'].
  exists s'. split; [exact Hs' |]. cbv zeta.
  destruct (adapt_mesh_trace _ _ Hs') as (L & T & M & V).
  split; [exact L |]. split; [exact M |]. split; [exact V |]. split; [exact T |].
  destruct (DEAL_II_WITH_P4EST E); reflexivity.
Qed.

(* ================================================================= *)
(** ** The stability monitor *)

(** C1.  With the stability analysis switched on, the verdict [cfl_stable ()]
    is false (the run counts as divergent) exactly when
    [last_error > 100 * first_error] or [last_error > 1.5 * first_magnitude].
    Fed with the errors 1, 2, 150 and the magnitude 10 at the first
    observation, a freshly constructed problem latches the magnitude 10 and
    its verdict is stable after the first and the second observation and
    divergent after the third, whatever magnitudes the later observations
    carry. *)
Theorem stability_verdict (d : Z) (p : Parameters) (mag2 mag3 : double) :
  cfl_stability_analysis p = true ->
  (forall s : Problem,
     cfl_stable E s = false <->
     (last_error_val s >? 100.0 * first_error_val s)%float = true \/
     (last_error_val s >? 1.5 * first_mangnitude_val s)%float = true) /\
  let s1 := observe E 1%float 10%float (LinearizedEulerProblem E d p) in
  let s2 := observe E 2%float mag2 s1 in
  let s3 := observe E 150%float mag3 s2 in
  first_error_val s3 = 1%float /\
  first_mangnitude_val s3 = 10%float /\
  cfl_stable E s1 = true /\
  cfl_stable E s2 = true /\
  cfl_stable E s3 = false.
Proof.
  intros Hflag. split.
  - intros s. unfold cfl_stable.
    rewrite negb_false_iff, orb_true_iff. reflexivity.
  - destruct p as [dm fe it cfl flag ft oe ms nr na ai ic mm].
    cbn [cfl_stability_analysis] in Hflag. subst flag.
    vm_compute. repeat split.
Qed.

(** C5.  When an output evaluation finds the divergence condition true (the
    analysis being switched on), it sets the clock to [final_time] and returns
    normally.  With the end time of the clock being the configured, ordinary
    [final_time], [done ()] then holds and the time loop returns the state at
    once, as a normal result: no further step is taken and nothing is
    raised. *)
Theorem divergence_forces_final_time
    (s : Problem) (integrator : IntegratorType) (fuel : nat) :
  cfl_stability_analysis (parameters s) = true ->
  cfl_stable E (output_results E s) = false ->
  tc_final_time (time_control s) = final_time (parameters s) ->
  is_nan (final_time (parameters s)) = false ->
  let s' := output_results E s in
  tc_time (time_control s') = final_time (parameters s) /\
  forced_termination s' = true /\
  done (time_control s') = true /\
  time_loop E integrator fuel s' = Ok s'.
Proof.
  intros Hflag Hdiv Hft Hnan. cbv zeta.
  destruct (output_results_cases s) as (_ & _ & _ & _ & _ & Hon).
  destruct (Hon Hflag) as (_ & _ & Htc & Hlog). clear Hon.
  rewrite Hdiv in Htc, Hlog. cbn [negb] in Htc, Hlog.
  assert (Hdone : done (time_control (output_results E s)) = true).
  { rewrite Htc. unfold done. fields. rewrite Hft.
    rewrite (Binary64.leb_refl _ Hnan). reflexivity. }
  split; [rewrite Htc; reflexivity |].
  split.
  - unfold forced_termination. rewrite Hlog, !existsb_app. cbn.
    rewrite !orb_true_r. reflexivity.
  - split; [exact Hdone |].
    destruct fuel; cbn [time_loop]; rewrite Hdone; reflexivity.
Qed.

Lemma solution_norm_rho_not_negative (s : Problem) :
  (solution_norm_rho E s <? 0.0)%float = false.
Proof. unfold solution_norm_rho. apply Binary64.sqrt_not_negative. Qed.



(* ================================================================= *)
(** ** The CFL search *)

Lemma set_cfl_number_same (p : Parameters) : set_cfl_number (cfl_number p) p = p.
Proof. destruct p. reflexivity. Qed.

Lemma analysable_set_cfl_number (c : double) (p : Parameters) :
  analysable E (set_cfl_number c p) = analysable E p.
Proof. reflexivity. Qed.

Lemma cadence_defined_set_cfl_number (c : double) (p : Parameters) :
  cadence_defined (set_cfl_number c p) = cadence_defined p.
Proof. reflexivity. Qed.

(** A simulation of the search is a whole run, to the point at which
    [done ()] holds, and its verdict is [cfl_stable ()] of the problem then. *)
Lemma simulate_returns (d : Z) (p : Parameters) :
  supported E d p = true ->
  cadence_defined p = true ->
  exists s, run E (LinearizedEulerProblem E d p) = Ok s /\
    done (time_control s) = true /\
    simulate E d p = Ok (cfl_stable E s).
Proof.
  intros Hs Hc. destruct (run_ends_done d p Hs Hc) as (s & Hrun & Hdone).
  exists s. split; [exact Hrun |]. split; [exact Hdone |].
  unfold simulate. rewrite Hrun. reflexivity.
Qed.

Lemma analysable_simulate (p : Parameters) :
  analysable E p = true ->
  cadence_defined p = true ->
  exists s,
    run E (LinearizedEulerProblem E (dimension p) p) = Ok s /\
    done (time_control s) = true /\
    (if (dimension p =? 2)%Z then simulate E 2 p
     else if (dimension p =? 3)%Z then simulate E 3 p
     else Ok false) = Ok (cfl_stable E s) /\
    (if ((dimension p =? 2) || (dimension p =? 3))%Z
     then [(p, cfl_stable E s)] else []) = [(p, cfl_stable E s)].
Proof.
  unfold analysable. intros H Hc. apply andb_prop in H. destruct H as [Hd Hs].
  destruct (simulate_returns _ _ Hs Hc) as (s & Hrun & Hdone & Hv).
  exists s. split; [exact Hrun |]. split; [exact Hdone |].
  rewrite Hd. split; [| reflexivity].
  destruct (Z.eqb_spec (dimension p) 2) as [E2 | N2].
  - rewrite <- E2. exact Hv.
  - destruct (Z.eqb_spec (dimension p) 3) as [E3 | N3].
    + rewrite <- E3. exact Hv.
    + discriminate Hd.
Qed.

Lemma stable_candidates_snoc (sims : list (Parameters * bool)) (q : Parameters)
    (v : bool) :
  stable_candidates (sims ++ [(q, v)])
  = stable_candidates sims ++ (if v then [cfl_number q] else []).
Proof.
  unfold stable_candidates. rewrite filter_app, map_app. destruct v; reflexivity.
Qed.

Lemma instable_candidates_snoc (sims : list (Parameters * bool)) (q : Parameters)
    (v : bool) :
  instable_candidates (sims ++ [(q, v)])
  = instable_candidates sims ++ (if v then [] else [cfl_number q]).
Proof.
  unfold instable_candidates. rewrite filter_app, map_app. destruct v; reflexivity.
Qed.

(** One pass of the search loop. *)
Lemma cfl_iteration_facts (p : Parameters) (i k : nat) (st : CflSearch) :
  analysable E p = true ->
  cadence_defined p = true ->
  search_invariant p k st ->
  exists s st',
    run E (LinearizedEulerProblem E (dimension p) (parameters_in st)) = Ok s /\
    done (time_control s) = true /\
    cfl_iteration E i st = Ok st' /\
    search_invariant p (S k) st' /\
    simulations st' = simulations st ++ [(parameters_in st, cfl_stable E s)] /\
    cfl_closest_stable st'
    = (if cfl_stable E s then cfl_test st else cfl_closest_stable st) /\
    cfl_closest_instable st'
    = (if cfl_stable E s then cfl_closest_instable st else cfl_test st) /\
    cfl_test st'
    = next_cfl_test (degree_scaling E p) (cfl_test st)
        (cfl_closest_stable st') (cfl_closest_instable st') /\
    parameters_in st' = set_cfl_number (cfl_test st') p.
Proof.
  intros Ha Hc (Ip & Il & Is & Iu).
  assert (Ha' : analysable E (parameters_in st) = true) by (rewrite Ip; exact Ha).
  assert (Hc' : cadence_defined (parameters_in st) = true) by (rewrite Ip; exact Hc).
  destruct (analysable_simulate _ Ha' Hc') as (s & Hrun & Hdone & Hsel & Hran).
  assert (Hdim : dimension (parameters_in st) = dimension p) by (rewrite Ip; reflexivity).
  assert (Hcfl : cfl_number (parameters_in st) = cfl_test st) by (rewrite Ip; reflexivity).
  assert (Hsc : degree_scaling E (parameters_in st) = degree_scaling E p)
    by (rewrite Ip; reflexivity).
  exists s. eexists. split; [rewrite <- Hdim; exact Hrun |]. split; [exact Hdone |].
  split; [unfold cfl_iteration; cbv zeta; rewrite Hsel; cbn [bind]; rewrite Hran;
          reflexivity |].
  cbn [cfl_test cfl_closest_stable cfl_closest_instable parameters_in simulations].
  rewrite Hsc.
  assert (Hset : forall c, set_cfl_number c (parameters_in st) = set_cfl_number c p)
    by (intros c; rewrite Ip; reflexivity).
  split.
  { unfold search_invariant.
    cbn [cfl_test cfl_closest_stable cfl_closest_instable parameters_in simulations].
    split; [apply Hset |].
    split; [rewrite length_app, Il; cbn; lia |].
    rewrite stable_candidates_snoc, instable_candidates_snoc, Hcfl.
    destruct (cfl_stable E s).
    - rewrite last_last, app_nil_r. split; [reflexivity | exact Iu].
    - rewrite last_last, app_nil_r. split; [exact Is | reflexivity]. }
  split; [reflexivity |]. split; [reflexivity |]. split; [reflexivity |].
  split; [reflexivity | apply Hset].
Qed.

Lemma cfl_loop_snoc (k : nat) : forall (i : nat) (st : CflSearch),
  cfl_loop E (S k) i st
  = (st' <- cfl_loop E k i st ;; cfl_iteration E (i + k) st').
Proof.
  induction k as [| k IH]; intros i st.
  - cbn [cfl_loop bind]. rewrite Nat.add_0_r.
    destruct (cfl_iteration E i st); reflexivity.
  - change (cfl_loop E (S (S k)) i st)
      with (st1 <- cfl_iteration E i st ;; cfl_loop E (S k) (S i) st1).
    change (cfl_loop E (S k) i st)
      with (st1 <- cfl_iteration E i st ;; cfl_loop E k (S i) st1).
    destruct (cfl_iteration E i st) as [st1 | |]; cbn [bind];
      [| reflexivity | reflexivity].
    rewrite IH. replace (S i + k) with (i + S k) by lia. reflexivity.
Qed.

Lemma cfl_search_start_invariant (p : Parameters) :
  search_invariant p 0 (cfl_search_start p).
Proof.
  unfold search_invariant, cfl_search_start.
  cbn [cfl_test cfl_closest_stable cfl_closest_instable parameters_in simulations].
  rewrite set_cfl_number_same.
  split; [reflexivity |]. split; [reflexivity |]. split; reflexivity.
Qed.

(** The search loop returns, and the invariant holds after every pass. *)
Lemma cfl_loop_facts (p : Parameters) (k : nat) :
  analysable E p = true ->
  cadence_defined p = true ->
  exists st, cfl_loop E k 0 (cfl_search_start p) = Ok st /\ search_invariant p k st.
Proof.
  intros Ha Hc. induction k as [| k (st & Hst & Inv)].
  - exists (cfl_search_start p). split; [reflexivity |].
    apply cfl_search_start_invariant.
  - destruct (cfl_iteration_facts p k k st Ha Hc Inv)
      as (s & st' & _ & _ & Hit & Inv' & _).
    exists st'. split; [| exact Inv'].
    rewrite cfl_loop_snoc, Hst. cbn [bind]. exact Hit.
Qed.

(** The simulations recorded after some passes stay recorded, in place,
    after later passes. *)
Lemma cfl_loop_simulations (p : Parameters) (k m : nat) :
  analysable E p = true ->
  cadence_defined p = true ->
  forall stk stm,
  cfl_loop E k 0 (cfl_search_start p) = Ok stk ->
  cfl_loop E (k + m) 0 (cfl_search_start p) = Ok stm ->
  exists rest, simulations stm = simulations stk ++ rest.
Proof.
  intros Ha Hc. induction m as [| m IH]; intros stk stm Hk Hm.
  - rewrite Nat.add_0_r, Hk in Hm. injection Hm as <-.
    exists []. rewrite app_nil_r. reflexivity.
  - replace (k + S m) with (S (k + m)) in Hm by lia.
    destruct (cfl_loop_facts p (k + m) Ha Hc) as (stp & Hp & Invp).
    destruct (cfl_iteration_facts p (k + m) (k + m) stp Ha Hc Invp)
      as (s & stq & _ & _ & Hq & _ & Hsim & _).
    rewrite cfl_loop_snoc, Hp in Hm. cbn [bind] in Hm.
    rewrite Nat.add_0_l, Hq in Hm. injection Hm as <-.
    destruct (IH stk stp Hk Hp) as (rest & Hrest).
    exists (rest ++ [(parameters_in stp, cfl_stable E s)]).
    rewrite Hsim, Hrest, app_assoc. reflexivity.
Qed.

(* ================================================================= *)
(** ** The time-step size *)

(** The loop of [compute_time_step_size], from any starting value that is a
    number. *)
Lemma min_cell_diameter_from (tria : Triangulation) : forall acc : double,
  let r :=
    fold_left
      (fun acc cell =>
         if is_locally_owned cell
         then if (minimum_vertex_distance cell <? acc)%float
              then minimum_vertex_distance cell else acc
         else acc)
      tria acc in
  is_nan acc = false ->
  is_nan r = false /\
  (acc <? r)%float = false /\
  (r = acc \/
   exists cell, In cell tria /\ is_locally_owned cell = true /\
                minimum_vertex_distance cell = r) /\
  (forall cell, In cell tria -> is_locally_owned cell = true ->
     (minimum_vertex_distance cell <? r)%float = false) /\
  ((forall cell, In cell tria -> is_locally_owned cell = false) -> r = acc).
Proof.
  induction tria as [| c rest IH]; intros acc; cbv zeta; cbn [fold_left]; intros Hacc.
  - split; [exact Hacc |]. split; [apply Binary64.ltb_irrefl |].
    split; [left; reflexivity |]. split; [intros cell [] | reflexivity].
  - destruct (is_locally_owned c) eqn:Hown.
    + destruct (minimum_vertex_distance c <? acc)%float eqn:Hlt.
      * destruct (Binary64.ltb_not_nan _ _ Hlt) as [Hd _].
        destruct (IH (minimum_vertex_distance c) Hd) as (N & B & A & L & _).
        split; [exact N |]. split.
        { match goal with |- ?g = false => destruct g eqn:Hg end; [| reflexivity].
          rewrite (Binary64.ltb_trans _ _ _ Hlt Hg) in B. discriminate. }
        split.
        { right. destruct A as [A | (cell & Hin & Ho & Hm)].
          - exists c. split; [left; reflexivity |]. split; [exact Hown |].
            symmetry. exact A.
          - exists cell. split; [right; exact Hin |]. split; assumption. }
        split.
        { intros cell [<- | Hin] Ho; [exact B | exact (L cell Hin Ho)]. }
        intros Hnone. rewrite (Hnone c (or_introl eq_refl)) in Hown. discriminate.
      * destruct (IH acc Hacc) as (N & B & A & L & Z).
        split; [exact N |]. split; [exact B |]. split.
        { destruct A as [A | (cell & Hin & Ho & Hm)]; [left; exact A | right].
          exists cell. split; [right; exact Hin |]. split; assumption. }
        split.
        { intros cell [<- | Hin] Ho; [| exact (L cell Hin Ho)].
          match goal with |- ?g = false => destruct g eqn:Hg end; [| reflexivity].
          destruct (Binary64.ltb_cotrans _ acc _ Hacc Hg) as [H | H]; congruence. }
        intros Hnone. rewrite (Hnone c (or_introl eq_refl)) in Hown. discriminate.
    + destruct (IH acc Hacc) as (N & B & A & L & Z).
      split; [exact N |]. split; [exact B |]. split.
      { destruct A as [A | (cell & Hin & Ho & Hm)]; [left; exact A | right].
        exists cell. split; [right; exact Hin |]. split; assumption. }
      split.
      { intros cell [<- | Hin] Ho; [congruence | exact (L cell Hin Ho)]. }
      intros Hnone. apply Z. intros cell Hin. apply Hnone. right. exact Hin.
Qed.


(** X2.  The diameter that [compute_time_step_size] hands to
    [Utilities::MPI::min] is a number, is not above
    [std::numeric_limits<double>::max ()], and is that value or the
    [minimum_vertex_distance] of a locally owned cell.  On a process that owns
    no cell (an empty mesh included) it is that value, and the step size is
    [cfl_number] times the minimum that MPI returns for it. *)
Theorem min_cell_diameter_attained (tria : Triangulation) (p : Parameters) :
  is_nan (min_cell_diameter tria) = false /\
  (DBL_MAX <? min_cell_diameter tria)%float = false /\
  (min_cell_diameter tria = DBL_MAX \/
   exists cell, In cell tria /\ is_locally_owned cell = true /\
                minimum_vertex_distance cell = min_cell_diameter tria) /\
  ((forall cell, In cell tria -> is_locally_owned cell = false) ->
   min_cell_diameter tria = DBL_MAX /\
   compute_time_step_size E tria p = (cfl_number p * mpi_min E DBL_MAX)%float).
Proof.
  destruct (min_cell_diameter_from tria DBL_MAX eq_refl) as (N & B & A & _ & Z).
  split; [exact N |]. split; [exact B |]. split; [exact A |].
  intros Hnone. pose proof (Z Hnone) as Hz.
  change (min_cell_diameter tria = DBL_MAX) in Hz.
  split; [exact Hz |]. unfold compute_time_step_size. rewrite Hz. reflexivity.
Qed.

(* ================================================================= *)
(** ** More on the adaptation *)


Lemma Forall2_map_r (A : Type) (P : A -> A -> Prop) (f : A -> A) (l : list A) :
  (forall a, P a (f a)) -> Forall2 P l (map f l).
Proof.
  intros H. induction l as [| a l IH]; cbn [map]; constructor; auto.
Qed.

(** X4.  The flag pass of [adapt_mesh] changes flags only: cell by cell, in
    order, it keeps level, index, owner and geometry; it never sets a refine
    flag; it removes a coarsen flag only from a cell at [min_level]; and it
    leaves the cells of other processes exactly as
    [set_refinement_indicators] flagged them. *)
Theorem flag_pass_only_adjusts_flags (s : Problem) :
  Forall2
    (fun before after =>
       level after = level before /\
       active_cell_index after = active_cell_index before /\
       is_locally_owned after = is_locally_owned before /\
       minimum_vertex_distance after = minimum_vertex_distance before /\
       (refine_flag_set after = true -> refine_flag_set before = true) /\
       (coarsen_flag_set before = true -> coarsen_flag_set after = false ->
        level before = n_refinements (parameters s)) /\
       (is_locally_owned before = false -> after = before))
    (set_refinement_indicators E (triangulation s) (error_indicators E s))
    (flagged_cells E s).
Proof.
  unfold flagged_cells. cbv zeta. apply Forall2_map_r.
  intros cell. unfold adjust_flags.
  destruct cell as [lv rf cf own idx dist].
  cbn [is_locally_owned level refine_flag_set coarsen_flag_set active_cell_index
       minimum_vertex_distance].
  destruct own;
    [| repeat split; intros; cbn in *; try reflexivity; try assumption; congruence].
  destruct (Z.eqb_spec lv
              (n_refinements (parameters s)
               + Z.of_nat (n_adaptive_refinements (parameters s)))) as [Hmax | Hmax];
    destruct (Z.eqb_spec lv (n_refinements (parameters s))) as [Hmin | Hmin];
    destruct rf, cf;
    cbn [andb clear_refine_flag clear_coarsen_flag set_coarsen_flag
         is_locally_owned level refine_flag_set coarsen_flag_set active_cell_index
         minimum_vertex_distance];
    destruct (vector_at (error_indicators E s) idx
              <? 0.1 * maximal_cellwise_error_init s)%float;
    cbn [andb clear_refine_flag clear_coarsen_flag set_coarsen_flag
         is_locally_owned level refine_flag_set coarsen_flag_set active_cell_index
         minimum_vertex_distance];
    destruct (vector_at (error_indicators E s) idx
              <? 0.05 * maximal_cellwise_error_init s)%float;
    cbn [andb clear_refine_flag clear_coarsen_flag set_coarsen_flag
         is_locally_owned level refine_flag_set coarsen_flag_set active_cell_index
         minimum_vertex_distance];
    repeat split; intros; try reflexivity; try discriminate; try congruence.
Qed.

Lemma adapt_mesh_vectors (s s' : Problem) :
  adapt_mesh E s = Ok s' ->
  tmp_solutions s' = initialize_dof_vector E (triangulation s') /\
  linearized_euler_op s' = linearized_euler_op s /\
  time_control s'
  = set_time_step (compute_time_step_size E (triangulation s') (parameters s'))
      (set_time_step (compute_time_step_size E (triangulation s') (parameters s'))
         (time_control s)).
Proof.
  unfold adapt_mesh. cbv zeta. intros H.
  destruct (DEAL_II_WITH_P4EST E).
  - match type of H with (if ?c then _ else _) = _ => destruct c end;
      [| discriminate].
    injection H as <-. fields. repeat split.
  - injection H as <-. fields. repeat split.
Qed.

(** X5.  An adaptation that returns has touched the mesh, the two vectors and
    the step size only: the parameters, the clock and its step counter, the
    stability record and the reference error are as before.  Of the two
    vectors only [solutions] is carried over; [tmp_solutions] is created anew
    on the new mesh. *)
Theorem adapt_mesh_leaves_clock_and_record (s s' : Problem) :
  adapt_mesh E s = Ok s' ->
  parameters s' = parameters s /\ dim s' = dim s /\
  tc_time (time_control s') = tc_time (time_control s) /\
  tc_step_number (time_control s') = tc_step_number (time_control s) /\
  tc_final_time (time_control s') = tc_final_time (time_control s) /\
  tc_max_steps (time_control s') = tc_max_steps (time_control s) /\
  first_error_val s' = first_error_val s /\
  first_mangnitude_val s' = first_mangnitude_val s /\
  last_error_val s' = last_error_val s /\
  maximal_cellwise_error_init s' = maximal_cellwise_error_init s /\
  tmp_solutions s' = initialize_dof_vector E (triangulation s') /\
  solutions s'
  = interpolate E (solutions s)
      (prepare_coarsening_and_refinement E (flagged_cells E s)) (triangulation s').
Proof.
  intros H.
  destruct (adapt_mesh_quiet _ _ H)
    as ((F1 & F2 & F3 & F4) & A1 & A2 & A3 & A4 & A5 & A6 & _).
  destruct (adapt_mesh_vectors _ _ H) as (V & _).
  destruct (adapt_mesh_trace _ _ H) as (_ & _ & _ & S).
  repeat (split; [assumption |]). exact S.
Qed.

(* ================================================================= *)
(** ** More on the output evaluation *)

Lemma stability_monitor_vectors (mag : double) (s : Problem) :
  let s' := stability_monitor E mag s in
  solutions s' = solutions s /\ tmp_solutions s' = tmp_solutions s /\
  triangulation s' = triangulation s /\
  linearized_euler_op s' = linearized_euler_op s /\
  tc_time_step (time_control s') = tc_time_step (time_control s) /\
  tc_output_every (time_control s') = tc_output_every (time_control s).
Proof.
  cbv zeta. unfold stability_monitor.
  destruct (cfl_stability_analysis (parameters s)); [| repeat split].
  cbv zeta.
  destruct (first_error_val s <? 0)%float;
    match goal with |- context [if (?c) then _ else _] => destruct c end;
    fields; repeat split.
Qed.

Lemma output_results_vectors (s : Problem) :
  let s' := output_results E s in
  solutions s' = solutions s /\ tmp_solutions s' = tmp_solutions s /\
  triangulation s' = triangulation s /\
  linearized_euler_op s' = linearized_euler_op s /\
  tc_time_step (time_control s') = tc_time_step (time_control s) /\
  tc_output_every (time_control s') = tc_output_every (time_control s).
Proof.
  cbv zeta. unfold output_results, observe.
  destruct (stability_monitor_vectors (density_mag E s)
              (emit E (Ev_write_last_error (solution_norm_rho E s))
                 (with_last_error_val E (solution_norm_rho E s)
                    (emit E Ev_output_results s))))
    as (A1 & A2 & A3 & A4 & A5 & A6).
  fields_in A1. fields_in A2. fields_in A3. fields_in A4. fields_in A5. fields_in A6.
  repeat (split; [assumption |]). assumption.
Qed.

(** What an output evaluation appends to the trace starts with the
    evaluation itself and holds neither a time step nor a call of the
    adaptation. *)
Lemma output_results_log (s : Problem) :
  exists l, log (output_results E s) = log s ++ Ev_output_results :: l /\
    existsb is_adaptation l = false /\ existsb is_perform_time_step l = false.
Proof.
  destruct (output_results_cases s) as (_ & _ & _ & _ & Hoff & Hon).
  destruct (cfl_stability_analysis (parameters s)).
  - destruct (Hon eq_refl) as (_ & _ & _ & H). clear Hon Hoff.
    destruct (first_error_val s <? 0)%float;
      destruct (negb (cfl_stable E (output_results E s)));
      eexists; (split; [exact H |]); split; reflexivity.
  - destruct (Hoff eq_refl) as (_ & _ & _ & H). clear Hon Hoff.
    eexists. split; [exact H |]. split; reflexivity.
Qed.

(** X6.  An output evaluation does not disturb the computation: the two
    vectors, the mesh, the parameters, the reference error, the step counter
    and the step size are as before.  Of the clock it can change only the
    time, and only with the stability analysis switched on, to [final_time];
    with the analysis off it leaves the clock and the first error and
    magnitude alone. *)
Theorem output_results_leaves_solution (s : Problem) :
  let s' := output_results E s in
  solutions s' = solutions s /\ tmp_solutions s' = tmp_solutions s /\
  triangulation s' = triangulation s /\
  parameters s' = parameters s /\
  maximal_cellwise_error_init s' = maximal_cellwise_error_init s /\
  tc_step_number (time_control s') = tc_step_number (time_control s) /\
  tc_time_step (time_control s') = tc_time_step (time_control s) /\
  (tc_time (time_control s') = tc_time (time_control s) \/
   cfl_stability_analysis (parameters s) = true /\
   tc_time (time_control s') = final_time (parameters s)) /\
  (cfl_stability_analysis (parameters s) = false ->
   time_control s' = time_control s /\
   first_error_val s' = first_error_val s /\
   first_mangnitude_val s' = first_mangnitude_val s).
Proof.
  cbv zeta.
  destruct (output_results_vectors s) as (V1 & V2 & V3 & _ & V5 & _).
  destruct (output_results_cases s) as (_ & (F1 & _) & M & N & Hoff & Hon).
  split; [exact V1 |]. split; [exact V2 |]. split; [exact V3 |].
  split; [exact F1 |]. split; [exact M |]. split; [exact N |].
  split; [exact V5 |]. split.
  - destruct (cfl_stability_analysis (parameters s)).
    + destruct (Hon eq_refl) as (_ & _ & T & _). rewrite T.
      destruct (negb (cfl_stable E (output_results E s)));
        [right; split; reflexivity | left; reflexivity].
    + destruct (Hoff eq_refl) as (_ & _ & T & _). rewrite T. left. reflexivity.
  - intros Hflag. destruct (Hoff Hflag) as (A & B & T & _).
    split; [exact T |]. split; assumption.
Qed.

(** X7.  An error that is NaN is never taken for a divergence: when the
    density error computed by an output evaluation is NaN, both comparisons
    of the stability test are false, the clock is left alone, and the verdict
    [cfl_stable ()] is true. *)
Theorem nan_error_counts_as_stable (s : Problem) :
  is_nan (solution_norm_rho E s) = true ->
  let s' := output_results E s in
  cfl_stable E s' = true /\
  time_control s' = time_control s /\
  forced_termination s' = forced_termination s.
Proof.
  intros Hnan. cbv zeta.
  destruct (output_results_cases s) as (Hlast & _ & _ & _ & Hoff & Hon).
  assert (Hst : cfl_stable E (output_results E s) = true).
  { unfold cfl_stable, gtb. rewrite Hlast.
    rewrite !(Binary64.ltb_nan_r _ _ Hnan). reflexivity. }
  split; [exact Hst |].
  unfold forced_termination.
  destruct (cfl_stability_analysis (parameters s)).
  - destruct (Hon eq_refl) as (_ & _ & T & L). rewrite Hst in T, L.
    cbn [negb] in T, L. split; [exact T |].
    rewrite L, existsb_app.
    destruct (first_error_val s <? 0)%float; cbn; apply orb_false_r.
  - destruct (Hoff eq_refl) as (_ & _ & T & L). split; [exact T |].
    rewrite L, existsb_app. cbn. apply orb_false_r.
Qed.

(* ================================================================= *)
(** ** More on a run *)

Lemma select_operator_known (s : Problem) :
  integ_type (parameters s) <> other_integrator ->
  (1 <= fe_degree (parameters s) <= 5)%Z ->
  select_operator E s = Ok (with_linearized_euler_op E true s).
Proof.
  intros Hi Hk. unfold select_operator. cbv zeta.
  assert (Hd : ((fe_degree (parameters s) =? 1) || (fe_degree (parameters s) =? 2)
                || (fe_degree (parameters s) =? 3) || (fe_degree (parameters s) =? 4)
                || (fe_degree (parameters s) =? 5))%Z = true).
  { destruct (Z.eqb_spec (fe_degree (parameters s)) 1); [reflexivity |].
    destruct (Z.eqb_spec (fe_degree (parameters s)) 2); [reflexivity |].
    destruct (Z.eqb_spec (fe_degree (parameters s)) 3); [reflexivity |].
    destruct (Z.eqb_spec (fe_degree (parameters s)) 4); [reflexivity |].
    destruct (Z.eqb_spec (fe_degree (parameters s)) 5); [reflexivity | lia]. }
  rewrite Hd. destruct (integ_type (parameters s)); try reflexivity. congruence.
Qed.

Lemma select_integrator_known (t : IntegratorType) :
  t <> other_integrator -> select_integrator t = Ok t.
Proof. destruct t; intros H; try reflexivity. congruence. Qed.

Lemma supported_known (d : Z) (p : Parameters) :
  supported E d p = true ->
  integ_type p <> other_integrator /\ (1 <= fe_degree p <= 5)%Z /\
  (DEAL_II_WITH_P4EST E = false \/ (1 < d)%Z \/ n_adaptive_refinements p = 0).
Proof.
  intros Hs. pose proof (supported_dimension d p Hs) as Hd.
  unfold supported in Hs.
  apply andb_prop in Hs. destruct Hs as [Hs _].
  apply andb_prop in Hs. destruct Hs as [Hi Hk].
  split; [intros H; rewrite H in Hi; discriminate |]. split.
  - destruct (Z.eqb_spec (fe_degree p) 1); [lia |].
    destruct (Z.eqb_spec (fe_degree p) 2); [lia |].
    destruct (Z.eqb_spec (fe_degree p) 3); [lia |].
    destruct (Z.eqb_spec (fe_degree p) 4); [lia |].
    destruct (Z.eqb_spec (fe_degree p) 5); [lia | discriminate].
  - destruct Hd as [Hd | Hd]; [left; exact Hd | right; left].
    apply Z.ltb_lt. exact Hd.
Qed.

Lemma integrate_step_state (integrator : IntegratorType) (s : Problem) :
  let s1 := integrate_step E integrator s in
  parameters s1 = parameters s /\ dim s1 = dim s /\
  triangulation s1 = triangulation s /\
  tmp_solutions s1 = solutions s /\
  last_error_val s1 = last_error_val s /\
  first_error_val s1 = first_error_val s /\
  first_mangnitude_val s1 = first_mangnitude_val s /\
  log s1 = log s ++ [Ev_perform_time_step (tc_time_step (time_control s))].
Proof. unfold integrate_step. cbv zeta. fields. repeat split. Qed.

(** The adaptation on its cadence, when [adapt_mesh] cannot raise: it returns,
    or it has no result because the interval is zero. *)
Lemma adapt_on_interval_outcome (s : Problem) :
  adaptation_possible E s ->
  (exists s', adapt_on_interval E s = Ok s') \/
  (adapt_on_interval E s = Undefined /\ cadence_defined (parameters s) = false).
Proof.
  intros H. unfold adapt_on_interval, cadence_defined.
  destruct (n_adaptive_refinements (parameters s)) as [| n] eqn:En;
    [left; eexists; reflexivity |].
  cbn [Nat.ltb Nat.leb Nat.eqb orb].
  destruct (adaptive_refinement_interval (parameters s) =? 0)%nat;
    [right; split; reflexivity | left].
  destruct (_ =? 0)%nat; [| eexists; reflexivity].
  apply adapt_mesh_returns.
  destruct H as [H | [H | H]]; [left; exact H | right | congruence].
  apply Z.ltb_lt. exact H.
Qed.

Lemma time_step_outcome (integrator : IntegratorType) (s : Problem) :
  adaptation_possible E s ->
  (exists s', time_step E integrator s = Ok s' /\ adaptation_possible E s' /\
              parameters s' = parameters s) \/
  (time_step E integrator s = Undefined /\ cadence_defined (parameters s) = false).
Proof.
  intros H.
  destruct (integrate_step_state integrator s) as (P & D & _).
  assert (H1 : adaptation_possible E (integrate_step E integrator s)).
  { unfold adaptation_possible. rewrite P, D. exact H. }
  destruct (adapt_on_interval_outcome _ H1) as [[s2 Hs2] | [Hu Hc]].
  - left.
    assert (Hstep : time_step E integrator s
                    = Ok (if at_tick E (time_control s2)
                          then output_results E s2 else s2)).
    { unfold time_step. rewrite Hs2. reflexivity. }
    eexists. split; [exact Hstep |].
    destruct (time_step_facts _ _ _ Hstep) as ((P' & D' & _) & _).
    split; [| exact P'].
    unfold adaptation_possible. rewrite P', D'. exact H.
  - right. split; [| rewrite <- P; exact Hc].
    unfold time_step. rewrite Hu. reflexivity.
Qed.

(** The time loop never raises once [adapt_mesh] cannot: it returns, or it
    has no result because the interval is zero. *)
Lemma time_loop_outcome (integrator : IntegratorType) (fuel : nat) :
  forall s : Problem,
  adaptation_possible E s ->
  (exists s', time_loop E integrator fuel s = Ok s') \/
  (time_loop E integrator fuel s = Undefined /\
   cadence_defined (parameters s) = false).
Proof.
  induction fuel as [| fuel IH]; intros s H; cbn [time_loop].
  - destruct (done (time_control s)); left; eexists; reflexivity.
  - destruct (done (time_control s)); [left; eexists; reflexivity |].
    destruct (time_step_outcome integrator s H) as [(s1 & Hs1 & H1 & P1) | [Hu Hc]].
    + rewrite Hs1. cbn [bind].
      destruct (IH s1 H1) as [Hok | [Hu Hc]]; [left; exact Hok | right].
      split; [exact Hu | rewrite <- P1; exact Hc].
    + right. rewrite Hu. split; [reflexivity | exact Hc].
Qed.

Lemma time_loop_returns_general (integrator : IntegratorType) (fuel : nat)
    (s : Problem) :
  adaptation_possible E s ->
  cadence_defined (parameters s) = true ->
  exists s', time_loop E integrator fuel s = Ok s'.
Proof.
  intros H Hc.
  destruct (time_loop_outcome integrator fuel s H) as [Hok | [_ Hc']];
    [exact Hok | congruence].
Qed.

(** One pass of the time loop in a run without adaptive refinement. *)
Lemma time_step_without_adaptivity (integrator : IntegratorType) (s : Problem) :
  n_adaptive_refinements (parameters s) = 0 ->
  time_step E integrator s
  = Ok (if at_tick E (time_control (integrate_step E integrator s))
        then output_results E (integrate_step E integrator s)
        else integrate_step E integrator s).
Proof.
  intros H. unfold time_step, adapt_on_interval.
  destruct (integrate_step_state integrator s) as (P & _).
  rewrite P, H. reflexivity.
Qed.

Lemma time_loop_without_adaptivity (integrator : IntegratorType) (fuel : nat) :
  forall s s' : Problem,
  n_adaptive_refinements (parameters s) = 0 ->
  time_loop E integrator fuel s = Ok s' ->
  triangulation s' = triangulation s /\
  exists l, log s' = log s ++ l /\ existsb is_adaptation l = false.
Proof.
  assert (Hstop : forall s : Problem,
    triangulation s = triangulation s /\
    exists l, log s = log s ++ l /\ existsb is_adaptation l = false).
  { intros s. split; [reflexivity |]. exists []. rewrite app_nil_r.
    split; reflexivity. }
  induction fuel as [| fuel IH]; intros s s' Hn H; cbn [time_loop] in H.
  - destruct (done (time_control s)); injection H as <-; apply Hstop.
  - destruct (done (time_control s)); [injection H as <-; apply Hstop |].
    rewrite (time_step_without_adaptivity integrator s Hn) in H. cbn [bind] in H.
    destruct (integrate_step_state integrator s) as (P & _ & T & _ & _ & _ & _ & L).
    set (s1 := integrate_step E integrator s) in *.
    destruct (output_results_vectors s1) as (_ & _ & T' & _).
    destruct (output_results_cases s1) as (_ & (P' & _) & _).
    destruct (output_results_log s1) as (lo & Lo & Ao & _).
    destruct (at_tick E (time_control s1)).
    + destruct (IH _ _ (eq_trans (f_equal n_adaptive_refinements
                                     (eq_trans P' P)) Hn) H)
        as (T2 & l2 & L2 & A2).
      split; [congruence |].
      exists ([Ev_perform_time_step (tc_time_step (time_control s))]
              ++ (Ev_output_results :: lo) ++ l2).
      split; [rewrite L2, Lo, L, <- !app_assoc; reflexivity |].
      rewrite !existsb_app. cbn [existsb is_adaptation orb]. rewrite Ao, A2.
      reflexivity.
    + destruct (IH _ _ (eq_trans (f_equal n_adaptive_refinements P) Hn) H)
        as (T2 & l2 & L2 & A2).
      split; [congruence |].
      exists ([Ev_perform_time_step (tc_time_step (time_control s))] ++ l2).
      split; [rewrite L2, L, <- !app_assoc; reflexivity |].
      rewrite !existsb_app. cbn [existsb is_adaptation orb]. exact A2.
Qed.

(** With the stability analysis off, the time loop never writes the first
    error and never sets the clock. *)
Lemma time_loop_analysis_off (integrator : IntegratorType) (fuel : nat) :
  forall s s' : Problem,
  cfl_stability_analysis (parameters s) = false ->
  time_loop E integrator fuel s = Ok s' ->
  first_error_val s' = first_error_val s /\
  first_mangnitude_val s' = first_mangnitude_val s /\
  exists l, log s' = log s ++ l /\
    count is_set_time l = 0 /\ count is_first_error_write l = 0.
Proof.
  assert (Hstop : forall s : Problem,
    first_error_val s = first_error_val s /\
    first_mangnitude_val s = first_mangnitude_val s /\
    exists l, log s = log s ++ l /\
      count is_set_time l = 0 /\ count is_first_error_write l = 0).
  { intros s. split; [reflexivity |]. split; [reflexivity |].
    exists []. rewrite app_nil_r. split; [reflexivity |]. split; reflexivity. }
  induction fuel as [| fuel IH]; intros s s' Hflag H; cbn [time_loop] in H.
  - destruct (done (time_control s)); injection H as <-; apply Hstop.
  - destruct (done (time_control s)); [injection H as <-; apply Hstop |].
    destruct (time_step E integrator s) as [s1 | |] eqn:Hs1; cbn [bind] in H;
      [| discriminate | discriminate].
    destruct (time_step_cases _ _ _ Hs1)
      as (s2 & (P2 & _) & A1 & A2 & _ & _ & _ & (l & L & Q) & Hs).
    destruct (quiet_count l Q) as (C1 & _ & _ & _ & C5).
    assert (Hflag2 : cfl_stability_analysis (parameters s2) = false)
      by (rewrite P2; exact Hflag).
    destruct (output_results_cases s2) as (_ & (Po & _) & _ & _ & Hoff & _).
    destruct (Hoff Hflag2) as (B1 & B2 & _ & Lo). clear Hoff.
    destruct (at_tick E (time_control s2)); subst s1.
    + assert (Hflag3 : cfl_stability_analysis (parameters (output_results E s2)) = false)
        by (rewrite Po; exact Hflag2).
      destruct (IH _ _ Hflag3 H) as (G1 & G2 & l' & L' & D1 & D2).
      split; [congruence |]. split; [congruence |].
      exists (l ++ [Ev_output_results; Ev_write_last_error (solution_norm_rho E s2)]
                ++ l').
      split; [rewrite L', Lo, L, <- !app_assoc; reflexivity |].
      rewrite !count_app, C1, C5, D1, D2. split; reflexivity.
    + destruct (IH _ _ Hflag2 H) as (G1 & G2 & l' & L' & D1 & D2).
      split; [congruence |]. split; [congruence |].
      exists (l ++ l').
      split; [rewrite L', L, <- !app_assoc; reflexivity |].
      rewrite !count_app, C1, C5, D1, D2. split; reflexivity.
Qed.

(** The last error is a square root once an output evaluation has written
    it, and the time loop keeps it so. *)
Lemma time_loop_last_error (integrator : IntegratorType) (fuel : nat) :
  forall s s' : Problem,
  (last_error_val s <? 0.0)%float = false ->
  time_loop E integrator fuel s = Ok s' ->
  (last_error_val s' <? 0.0)%float = false.
Proof.
  induction fuel as [| fuel IH]; intros s s' Hl H; cbn [time_loop] in H.
  - destruct (done (time_control s)); injection H as <-; exact Hl.
  - destruct (done (time_control s)); [injection H as <-; exact Hl |].
    destruct (time_step E integrator s) as [s1 | |] eqn:Hs1; cbn [bind] in H;
      [| discriminate | discriminate].
    destruct (time_step_cases _ _ _ Hs1)
      as (s2 & _ & _ & _ & A3 & _ & _ & _ & Hs).
    apply (IH s1 s'); [| exact H]. subst s1.
    destruct (at_tick E (time_control s2)).
    + destruct (output_results_cases s2) as (Hlast & _). rewrite Hlast.
      apply solution_norm_rho_not_negative.
    + rewrite A3. exact Hl.
Qed.

Lemma project_initial_state (s : Problem) :
  let s' := project_initial E s in
  solutions s'
  = project_initial_field E (parameters s') (triangulation s')
      (tc_time (time_control s')) /\
  tmp_solutions s' = tmp_solutions s /\
  time_control s' = time_control s /\
  triangulation s' = triangulation s /\
  linearized_euler_op s' = linearized_euler_op s /\
  parameters s' = parameters s.
Proof. unfold project_initial. cbv zeta. fields. repeat split. Qed.

Lemma capture_state (s : Problem) :
  let s' := capture_maximal_cellwise_error E s in
  time_control s' = time_control s /\
  linearized_euler_op s' = linearized_euler_op s /\
  parameters s' = parameters s.
Proof. unfold capture_maximal_cellwise_error. cbv zeta. fields. repeat split. Qed.

Lemma adaptation_order_no_loop_event (b : bool) (dt : double) :
  existsb is_loop_event (adaptation_order b dt) = false.
Proof. destruct b; reflexivity. Qed.

(** The pre-refinement loop hands over the projection of the initial field
    on the mesh it ends with, a fresh [tmp_solutions] and the step size of
    that mesh; it makes no time step and no output evaluation. *)
Lemma pre_refinement_state (n : nat) :
  forall s : Problem,
  n = 0 \/ DEAL_II_WITH_P4EST E = false \/ (1 < dim s)%Z ->
  solutions s
  = project_initial_field E (parameters s) (triangulation s)
      (tc_time (time_control s)) ->
  tmp_solutions s = initialize_dof_vector E (triangulation s) ->
  tc_time_step (time_control s)
  = compute_time_step_size E (triangulation s) (parameters s) ->
  exists s', pre_refinement E n s = Ok s' /\
    untouched s s' /\
    linearized_euler_op s' = linearized_euler_op s /\
    solutions s'
    = project_initial_field E (parameters s') (triangulation s')
        (tc_time (time_control s')) /\
    tmp_solutions s' = initialize_dof_vector E (triangulation s') /\
    tc_time_step (time_control s')
    = compute_time_step_size E (triangulation s') (parameters s') /\
    (exists l, log s' = log s ++ l /\ existsb is_loop_event l = false) /\
    (n = 0 -> s' = s).
Proof.
  induction n as [| n IH]; intros s Hd Hsol Htmp Hdt; cbn [pre_refinement].
  - exists s. split; [reflexivity |].
    split; [apply quiet_step_untouched, quiet_step_refl |].
    split; [reflexivity |]. split; [exact Hsol |]. split; [exact Htmp |].
    split; [exact Hdt |].
    split; [exists []; rewrite app_nil_r; split; reflexivity |].
    intros _. reflexivity.
  - assert (Hd' : DEAL_II_WITH_P4EST E = false \/ (1 <? dim s)%Z = true).
    { destruct Hd as [Hd | [Hd | Hd]]; [discriminate | left; exact Hd | right].
      apply Z.ltb_lt. exact Hd. }
    destruct (adapt_mesh_returns s Hd') as [s1 Hs1]. rewrite Hs1. cbn [bind].
    pose proof (adapt_mesh_quiet _ _ Hs1) as Q1.
    destruct (adapt_mesh_trace _ _ Hs1) as (L1 & T1 & _).
    destruct (adapt_mesh_vectors _ _ Hs1) as (V1 & O1 & _).
    destruct (project_initial_state s1) as (S2 & V2 & C2 & T2 & O2 & P2).
    pose proof (project_initial_quiet s1) as Q2.
    pose proof (project_initial_log s1) as L2.
    pose proof (quiet_step_trans _ _ _ Q1 Q2) as Q.
    pose proof (adaptation_order_no_loop_event (DEAL_II_WITH_P4EST E)
                  (compute_time_step_size E (triangulation s1) (parameters s1))) as N1.
    set (l1 := adaptation_order _ _) in *.
    set (s2 := project_initial E s1) in *.
    pose proof (quiet_step_untouched _ _ Q) as U2.
    assert (D2 : dim s2 = dim s) by (destruct Q as ((_ & D & _) & _); exact D).
    assert (Htmp2 : tmp_solutions s2 = initialize_dof_vector E (triangulation s2))
      by congruence.
    assert (Hdt2 : tc_time_step (time_control s2)
                   = compute_time_step_size E (triangulation s2) (parameters s2))
      by congruence.
    destruct n as [| n]; cbn [Nat.eqb].
    + cbn [pre_refinement].
      destruct (capture_facts s2) as (U & T3 & S3 & V3 & _ & L3).
      destruct (capture_state s2) as (C3 & O3 & P3).
      eexists. split; [reflexivity |].
      split; [exact (untouched_trans _ _ _ U2 U) |].
      split; [congruence |]. split; [congruence |]. split; [congruence |].
      split; [congruence |].
      split; [| intros H; discriminate H].
      eexists. split.
      { rewrite L3, L2, L1, <- !app_assoc. reflexivity. }
      rewrite !existsb_app, N1. reflexivity.
    + destruct (IH s2) as (s' & Hs' & U & O & S & V & D & (l & L & N) & _).
      { destruct Hd as [Hd | [Hd | Hd]]; [discriminate | right; left; exact Hd |].
        right. right. rewrite D2. exact Hd. }
      { exact S2. }
      { exact Htmp2. }
      { exact Hdt2. }
      exists s'. split; [exact Hs' |].
      split; [exact (untouched_trans _ _ _ U2 U) |].
      split; [congruence |]. split; [exact S |]. split; [exact V |].
      split; [exact D |].
      split; [| intros H; discriminate H].
      eexists. split.
      { rewrite L, L2, L1, <- !app_assoc. reflexivity. }
      rewrite !existsb_app, N1, N. reflexivity.
Qed.

(** The set-up phase of [run] in full: it returns when the integrator and
    the degree are known and no adaptation has to raise; the state it hands
    to the first output evaluation. *)
Lemma initialize_state (d : Z) (p : Parameters) :
  integ_type p <> other_integrator ->
  (1 <= fe_degree p <= 5)%Z ->
  DEAL_II_WITH_P4EST E = false \/ (1 < d)%Z \/ n_adaptive_refinements p = 0 ->
  exists s0, initialize E (LinearizedEulerProblem E d p) = Ok s0 /\
    parameters s0 = p /\ dim s0 = d /\
    first_error_val s0 = (-1.0)%float /\
    first_mangnitude_val s0 = indeterminate E /\
    last_error_val s0 = indeterminate E /\
    linearized_euler_op s0 = true /\
    solutions s0
    = project_initial_field E p (triangulation s0) (tc_time (time_control s0)) /\
    tmp_solutions s0 = initialize_dof_vector E (triangulation s0) /\
    tc_time_step (time_control s0) = compute_time_step_size E (triangulation s0) p /\
    existsb is_loop_event (log s0) = false /\
    (n_adaptive_refinements p = 0 ->
     triangulation s0 = input_geometry_description E p /\
     maximal_cellwise_error_init s0 = (-1)%float /\
     existsb is_adaptation (log s0) = false).
Proof.
  intros Hi Hk Hg. unfold initialize. cbv zeta.
  set (sb := with_time_control E _ (make_grid E (LinearizedEulerProblem E d p))).
  assert (Hp : parameters sb = p).
  { unfold sb, make_grid. fields. reflexivity. }
  rewrite (select_operator_known sb) by (rewrite Hp; assumption).
  cbn [bind].
  set (se := project_initial E (make_dofs E (with_linearized_euler_op E true sb))).
  assert (He : parameters se = p /\ dim se = d /\
               first_error_val se = (-1.0)%float /\
               first_mangnitude_val se = indeterminate E /\
               last_error_val se = indeterminate E /\
               linearized_euler_op se = true /\
               triangulation se = input_geometry_description E p /\
               maximal_cellwise_error_init se = (-1)%float /\
               existsb is_loop_event (log se) = false /\
               existsb is_adaptation (log se) = false).
  { unfold se, sb, project_initial, make_grid. fields.
    unfold LinearizedEulerProblem, setup.
    cbn [parameters dim first_error_val first_mangnitude_val last_error_val
         linearized_euler_op triangulation maximal_cellwise_error_init log].
    repeat split. }
  destruct He as (E1 & E2 & E3 & E4 & E5 & E6 & E7 & E8 & E9 & E10).
  assert (Hst : solutions se
                = project_initial_field E (parameters se) (triangulation se)
                    (tc_time (time_control se)) /\
                tmp_solutions se = initialize_dof_vector E (triangulation se) /\
                tc_time_step (time_control se)
                = compute_time_step_size E (triangulation se) (parameters se)).
  { unfold se, project_initial. fields. repeat split. }
  destruct Hst as (I1 & I2 & I3).
  replace (n_adaptive_refinements (parameters se)) with (n_adaptive_refinements p)
    by (rewrite E1; reflexivity).
  destruct (pre_refinement_state (n_adaptive_refinements p) se)
    as (s0 & Hs0 & ((F1 & F2 & _) & U1 & U2 & U3 & _) & O & S & V & D
        & (l & L & N) & Hz); try assumption.
  { destruct Hg as [Hg | [Hg | Hg]];
      [right; left; exact Hg | right; right; rewrite E2; exact Hg | left; exact Hg]. }
  exists s0. split; [exact Hs0 |].
  split; [congruence |]. split; [congruence |]. split; [congruence |].
  split; [congruence |]. split; [congruence |]. split; [congruence |].
  split; [rewrite S, F1, E1; reflexivity |]. split; [exact V |].
  split; [rewrite D, F1, E1; reflexivity |].
  split; [rewrite L, existsb_app, E9, N; reflexivity |].
  intros Hn. rewrite (Hz Hn). split; [exact E7 |]. split; [exact E8 | exact E10].
Qed.

(** [run] after a set-up phase that returns: it returns as well, or it has
    no result because the interval is zero.  It does not raise. *)
Lemma run_outcome (d : Z) (p : Parameters) :
  integ_type p <> other_integrator ->
  (1 <= fe_degree p <= 5)%Z ->
  DEAL_II_WITH_P4EST E = false \/ (1 < d)%Z \/ n_adaptive_refinements p = 0 ->
  exists s0,
    initialize E (LinearizedEulerProblem E d p) = Ok s0 /\
    run E (LinearizedEulerProblem E d p)
    = time_loop E (integ_type p) (max_time_steps p) (output_results E s0) /\
    ((exists s, run E (LinearizedEulerProblem E d p) = Ok s) \/
     (run E (LinearizedEulerProblem E d p) = Undefined /\ cadence_defined p = false)).
Proof.
  intros Hi Hk Hg.
  destruct (initialize_state d p Hi Hk Hg) as (s0 & H0 & P0 & D0 & _).
  destruct (output_results_cases s0) as (_ & (P1 & D1 & _) & _).
  assert (Hrun : run E (LinearizedEulerProblem E d p)
                 = time_loop E (integ_type p) (max_time_steps p) (output_results E s0)).
  { unfold run. rewrite H0. cbn [bind]. cbv zeta. rewrite P1, P0.
    rewrite (select_integrator_known _ Hi). reflexivity. }
  exists s0. split; [exact H0 |]. split; [exact Hrun |]. rewrite Hrun.
  destruct (time_loop_outcome (integ_type p) (max_time_steps p) (output_results E s0))
    as [Hok | [Hu Hc]].
  { unfold adaptation_possible. rewrite P1, D1, P0, D0. exact Hg. }
  - left. exact Hok.
  - right. split; [exact Hu |]. rewrite <- P0, <- P1. exact Hc.
Qed.

(** [run] returns under the same conditions when the cadence test is
    defined, through the set-up phase, the output of the initial fields and
    the time loop. *)
Lemma run_returns_general (d : Z) (p : Parameters) :
  integ_type p <> other_integrator ->
  (1 <= fe_degree p <= 5)%Z ->
  DEAL_II_WITH_P4EST E = false \/ (1 < d)%Z \/ n_adaptive_refinements p = 0 ->
  cadence_defined p = true ->
  exists s0 s,
    initialize E (LinearizedEulerProblem E d p) = Ok s0 /\
    run E (LinearizedEulerProblem E d p) = Ok s /\
    time_loop E (integ_type p) (max_time_steps p) (output_results E s0) = Ok s.
Proof.
  intros Hi Hk Hg Hc.
  destruct (run_outcome d p Hi Hk Hg) as (s0 & H0 & Hrun & [[s Hs] | [_ Hc']]);
    [| congruence].
  exists s0, s. split; [exact H0 |]. split; [exact Hs |].
  rewrite <- Hrun. exact Hs.
Qed.




Lemma select_operator_inv (s sc : Problem) :
  select_operator E s = Ok sc ->
  sc = with_linearized_euler_op E true s /\
  integ_type (parameters s) <> other_integrator /\
  (1 <= fe_degree (parameters s) <= 5)%Z.
Proof.
  unfold select_operator. cbv zeta. intros H.
  assert (Hk : ((fe_degree (parameters s) =? 1) || (fe_degree (parameters s) =? 2)
                || (fe_degree (parameters s) =? 3) || (fe_degree (parameters s) =? 4)
                || (fe_degree (parameters s) =? 5))%Z = true ->
               (1 <= fe_degree (parameters s) <= 5)%Z).
  { destruct (Z.eqb_spec (fe_degree (parameters s)) 1); [lia |].
    destruct (Z.eqb_spec (fe_degree (parameters s)) 2); [lia |].
    destruct (Z.eqb_spec (fe_degree (parameters s)) 3); [lia |].
    destruct (Z.eqb_spec (fe_degree (parameters s)) 4); [lia |].
    destruct (Z.eqb_spec (fe_degree (parameters s)) 5); [lia | discriminate]. }
  destruct (integ_type (parameters s));
    try (match type of H with (if ?c then _ else _) = _ =>
           destruct c; [| discriminate H] end;
         injection H as <-; split; [reflexivity |];
         split; [discriminate | exact (Hk eq_refl)]).
  discriminate H.
Qed.

(** A pre-refinement loop that returns has kept the parameters and the
    dimension, and, if it made any pass, was not in the case in which
    [adapt_mesh] raises. *)
Lemma pre_refinement_frame (n : nat) :
  forall s s' : Problem,
  pre_refinement E n s = Ok s' ->
  parameters s' = parameters s /\ dim s' = dim s /\
  (0 < n -> DEAL_II_WITH_P4EST E = false \/ (1 < dim s)%Z).
Proof.
  induction n as [| n IH]; intros s s' H; cbn [pre_refinement] in H.
  - injection H as <-. split; [reflexivity |]. split; [reflexivity | lia].
  - destruct (adapt_mesh E s) as [s1 | |] eqn:Hs1; cbn [bind] in H;
      [| discriminate | discriminate].
    assert (Hposs : DEAL_II_WITH_P4EST E = false \/ (1 < dim s)%Z).
    { destruct (DEAL_II_WITH_P4EST E) eqn:Hp; [right | left; reflexivity].
      destruct (Z.lt_ge_cases 1 (dim s)) as [Hd | Hd]; [exact Hd | exfalso].
      assert (Ht : adapt_mesh E s = Throw ExcNotImplemented).
      { unfold adapt_mesh. cbv zeta. fields. rewrite Hp.
        destruct (Z.ltb_spec 1 (dim s)); [lia | reflexivity]. }
      rewrite Ht in Hs1. discriminate Hs1. }
    destruct (adapt_mesh_quiet _ _ Hs1) as ((P1 & D1 & _) & _).
    destruct (project_initial_quiet s1) as ((P2 & D2 & _) & _).
    destruct (capture_facts (project_initial E s1)) as (((P3 & D3 & _) & _) & _).
    destruct (IH _ _ H) as (P4 & D4 & _).
    destruct (n =? 0)%nat.
    + split; [congruence |]. split; [congruence |]. intros _. exact Hposs.
    + split; [congruence |]. split; [congruence |]. intros _. exact Hposs.
Qed.

(* ================================================================= *)
(** ** More on the CFL search *)

Lemma run_unknown_integrator (d : Z) (p : Parameters) :
  integ_type p = other_integrator ->
  run E (LinearizedEulerProblem E d p) = Throw ExcNotImplemented.
Proof.
  intros Hi. unfold run, initialize. cbv zeta.
  set (sb := with_time_control E _ (make_grid E (LinearizedEulerProblem E d p))).
  assert (Hp : parameters sb = p).
  { unfold sb, make_grid. fields. reflexivity. }
  unfold select_operator. rewrite Hp, Hi. reflexivity.
Qed.

(** One pass of the search loop when the dimension is neither 2 nor 3: no
    simulation is run and the pass counts as unstable. *)
Lemma cfl_iteration_other_dimension (i : nat) (st : CflSearch) :
  dimension (parameters_in st) <> 2%Z ->
  dimension (parameters_in st) <> 3%Z ->
  exists st', cfl_iteration E i st = Ok st' /\
    simulations st' = simulations st /\
    cfl_closest_stable st' = cfl_closest_stable st /\
    cfl_closest_instable st' = cfl_test st /\
    cfl_test st'
    = next_cfl_test (degree_scaling E (parameters_in st)) (cfl_test st)
        (cfl_closest_stable st) (cfl_test st) /\
    parameters_in st' = set_cfl_number (cfl_test st') (parameters_in st).
Proof.
  intros H2 H3. unfold cfl_iteration. cbv zeta.
  destruct (Z.eqb_spec (dimension (parameters_in st)) 2); [contradiction |].
  destruct (Z.eqb_spec (dimension (parameters_in st)) 3); [contradiction |].
  cbn [bind orb]. eexists. split; [reflexivity |].
  cbn [simulations cfl_closest_stable cfl_closest_instable cfl_test parameters_in].
  rewrite app_nil_r. repeat split.
Qed.

Lemma cfl_loop_other_dimension (p : Parameters) (k : nat) :
  dimension p <> 2%Z ->
  dimension p <> 3%Z ->
  exists st, cfl_loop E k 0 (cfl_search_start p) = Ok st /\
    simulations st = [] /\
    cfl_closest_stable st = (-0.1)%float /\
    parameters_in st = set_cfl_number (cfl_test st) p.
Proof.
  intros H2 H3. induction k as [| k (st & Hst & S & B & P)].
  - exists (cfl_search_start p). split; [reflexivity |].
    split; [reflexivity |]. split; [reflexivity |].
    cbn [cfl_search_start cfl_test parameters_in]. symmetry. apply set_cfl_number_same.
  - destruct (cfl_iteration_other_dimension k st) as (st' & Hit & S' & B' & _ & _ & P');
      try (rewrite P; assumption).
    exists st'. split; [rewrite cfl_loop_snoc, Hst; cbn [bind]; exact Hit |].
    split; [congruence |]. split; [congruence |].
    rewrite P', P. reflexivity.
Qed.

(** X14.  Called with a dimension other than 2 and 3 (which [main] never
    does), [run_cfl_stability_analysis] raises nothing and simulates nothing:
    each of its twelve passes counts as unstable, so the stable bound stays at
    its initial -0.1, which the report prints scaled, and the candidate only
    ever shrinks, by 0.1 or to a third. *)
Theorem search_outside_two_and_three_dimensions (p : Parameters) :
  dimension p <> 2%Z ->
  dimension p <> 3%Z ->
  exists r, run_cfl_stability_analysis E p = Ok r /\
    simulations r = [] /\
    cfl_closest_stable r = (-0.1)%float /\
    reported_stable E r = (-0.1 * degree_scaling E p)%float /\
    forall k, k < 12 ->
    exists st st',
      cfl_loop E k 0 (cfl_search_start p) = Ok st /\
      cfl_loop E (S k) 0 (cfl_search_start p) = Ok st' /\
      cfl_closest_instable st' = cfl_test st /\
      cfl_test st'
      = (if (cfl_test st / degree_scaling E p >? 0.15)%float
         then cfl_test st - 0.1 else cfl_test st / 3.0)%float.
Proof.
  intros H2 H3.
  destruct (cfl_loop_other_dimension p 12 H2 H3) as (st12 & H12 & S12 & B12 & P12).
  eexists. split.
  { unfold run_cfl_stability_analysis. rewrite H12. cbn [bind]. reflexivity. }
  cbn [simulations cfl_closest_stable].
  split; [exact S12 |]. split; [exact B12 |]. split.
  { unfold reported_stable. cbn [cfl_closest_stable parameters_in].
    rewrite B12, P12. reflexivity. }
  intros k _.
  destruct (cfl_loop_other_dimension p k H2 H3) as (st & Hst & S & B & P).
  destruct (cfl_iteration_other_dimension k st) as (st' & Hit & _ & _ & I & N & _);
    try (rewrite P; assumption).
  exists st, st'. split; [exact Hst |].
  split; [rewrite cfl_loop_snoc, Hst; cbn [bind]; exact Hit |].
  split; [exact I |].
  rewrite N, B, P. unfold next_cfl_test.
  change (-0.1 <? 0.0)%float with true. reflexivity.
Qed.

Lemma cfl_iteration_pcout (i : nat) (st st' : CflSearch) :
  cfl_iteration E i st = Ok st' ->
  filter is_double (pcout st')
  = filter is_double (pcout st)
    ++ [out_double (cfl_test st * degree_scaling E (parameters_in st))%float] /\
  filter is_unsigned (pcout st') = filter is_unsigned (pcout st) ++ [out_unsigned i].
Proof.
  unfold cfl_iteration. cbv zeta. intros H.
  destruct (if (dimension (parameters_in st) =? 2)%Z then _ else _) as [v | |];
    cbn [bind] in H; [| discriminate | discriminate].
  injection H as <-. cbn [pcout]. rewrite !filter_app. split; reflexivity.
Qed.

Lemma cfl_loop_pcout (p : Parameters) (k : nat) :
  analysable E p = true ->
  cadence_defined p = true ->
  exists st, cfl_loop E k 0 (cfl_search_start p) = Ok st /\
    filter is_double (pcout st)
    = map (fun sim => out_double (cfl_number (fst sim) * degree_scaling E p)%float)
        (simulations st) /\
    filter is_unsigned (pcout st) = map out_unsigned (seq 0 k).
Proof.
  intros Ha Hc. induction k as [| k (st & Hst & D & U)].
  - exists (cfl_search_start p). split; [reflexivity |]. split; reflexivity.
  - destruct (cfl_loop_facts p k Ha Hc) as (st0 & Hst0 & Inv).
    rewrite Hst in Hst0. injection Hst0 as <-.
    destruct (cfl_iteration_facts p k k st Ha Hc Inv)
      as (s & st' & _ & _ & Hit & _ & Hsim & _).
    destruct (cfl_iteration_pcout _ _ _ Hit) as (D' & U').
    destruct Inv as (P & _).
    exists st'. split; [rewrite cfl_loop_snoc, Hst; cbn [bind]; exact Hit |].
    split.
    + rewrite D', D, Hsim, map_app. cbn [map fst]. rewrite P. reflexivity.
    + rewrite U', U, seq_S, map_app. reflexivity.
Qed.

(** A simulation that raises in the first pass ends the search. *)
Lemma cfl_search_raises (p : Parameters) (e : Exception) :
  dimension p = 2%Z \/ dimension p = 3%Z ->
  simulate E (dimension p) p = Throw e ->
  run_cfl_stability_analysis E p = Throw e.
Proof.
  intros Hd Hsim. unfold run_cfl_stability_analysis.
  change (cfl_loop E 12 0 (cfl_search_start p))
    with (st <- cfl_iteration E 0 (cfl_search_start p) ;; cfl_loop E 11 1 st).
  assert (Hit : cfl_iteration E 0 (cfl_search_start p) = Throw e).
  { unfold cfl_iteration. cbv zeta. cbn [cfl_search_start parameters_in].
    destruct Hd as [Hd | Hd]; rewrite Hd in *; cbn [Z.eqb Pos.eqb];
      rewrite Hsim; reflexivity. }
  rewrite Hit. reflexivity.
Qed.


(* ================================================================= *)
(** ** Runs that return *)

Lemma loop_event_counts (l : list Event) :
  existsb is_loop_event l = false ->
  count is_first_error_write l = 0 /\ count is_last_error_write l = 0 /\
  count is_output l = 0 /\ count is_set_time l = 0.
Proof.
  induction l as [| e l IH]; cbn [existsb]; intros H.
  - repeat split.
  - apply orb_false_elim in H. destruct H as [He Hl].
    destruct (IH Hl) as (H1 & H2 & H3 & H4).
    unfold count in *. cbn [filter].
    destruct e; cbn in He; try discriminate; cbn; repeat split; assumption.
Qed.

(** A set-up phase that returned was given an integrator of the switch and a
    degree between 1 and 5, and did not call [adapt_mesh] where it raises. *)
Lemma initialize_inv (d : Z) (p : Parameters) (s0 : Problem) :
  initialize E (LinearizedEulerProblem E d p) = Ok s0 ->
  integ_type p <> other_integrator /\
  (1 <= fe_degree p <= 5)%Z /\
  (DEAL_II_WITH_P4EST E = false \/ (1 < d)%Z \/ n_adaptive_refinements p = 0).
Proof.
  intros H. unfold initialize in H. cbv zeta in H.
  set (sb := with_time_control E _ (make_grid E (LinearizedEulerProblem E d p))) in H.
  assert (Hp : parameters sb = p /\ dim sb = d).
  { unfold sb, make_grid. fields. split; reflexivity. }
  destruct Hp as (Hp & Hd).
  destruct (select_operator E sb) as [sc | |] eqn:Hop; cbn [bind] in H;
    [| discriminate | discriminate].
  destruct (select_operator_inv _ _ Hop) as (-> & Hi & Hk). rewrite Hp in Hi, Hk.
  set (se := project_initial E (make_dofs E (with_linearized_euler_op E true sb))) in H.
  assert (He : parameters se = p /\ dim se = d).
  { unfold se, project_initial. fields. split; assumption. }
  destruct He as (E1 & E2). rewrite E1 in H.
  destruct (pre_refinement_frame _ _ _ H) as (_ & _ & Hposs).
  rewrite E2 in Hposs.
  split; [exact Hi |]. split; [exact Hk |].
  destruct (n_adaptive_refinements p) as [| n]; [right; right; reflexivity |].
  destruct (Hposs (Nat.lt_0_succ n)) as [Hq | Hq];
    [left; exact Hq | right; left; exact Hq].
Qed.

(** A run that returned went through the set-up phase, the output of the
    initial fields and the time loop. *)
Lemma run_inv (d : Z) (p : Parameters) (s : Problem) :
  run E (LinearizedEulerProblem E d p) = Ok s ->
  exists s0,
    initialize E (LinearizedEulerProblem E d p) = Ok s0 /\
    time_loop E (integ_type p) (max_time_steps p) (output_results E s0) = Ok s /\
    integ_type p <> other_integrator /\
    (1 <= fe_degree p <= 5)%Z /\
    (DEAL_II_WITH_P4EST E = false \/ (1 < d)%Z \/ n_adaptive_refinements p = 0).
Proof.
  intros Hrun.
  destruct (initialize E (LinearizedEulerProblem E d p)) as [s0 | e |] eqn:H0.
  - destruct (initialize_inv d p s0 H0) as (Hi & Hk & Hg).
    destruct (run_outcome d p Hi Hk Hg) as (s0' & H0' & Hr & _).
    rewrite H0 in H0'. injection H0' as <-.
    exists s0. split; [reflexivity |].
    split; [rewrite <- Hr; exact Hrun |].
    split; [exact Hi |]. split; [exact Hk | exact Hg].
  - unfold run in Hrun. rewrite H0 in Hrun. discriminate Hrun.
  - unfold run in Hrun. rewrite H0 in Hrun. discriminate Hrun.
Qed.

(** A run with adaptive refinement that returned had a supported
    configuration. *)
Lemma run_inv_supported (d : Z) (p : Parameters) (s : Problem) :
  0 < n_adaptive_refinements p ->
  run E (LinearizedEulerProblem E d p) = Ok s ->
  supported E d p = true.
Proof.
  intros Hn Hrun.
  destruct (run_inv d p s Hrun) as (_ & _ & _ & Hi & Hk & Hg).
  unfold supported.
  assert (H1 : match integ_type p with other_integrator => false | _ => true end = true)
    by (destruct (integ_type p); try reflexivity; contradiction Hi; reflexivity).
  assert (H2 : ((fe_degree p =? 1) || (fe_degree p =? 2) || (fe_degree p =? 3)
                || (fe_degree p =? 4) || (fe_degree p =? 5))%Z = true).
  { destruct (Z.eqb_spec (fe_degree p) 1); [reflexivity |].
    destruct (Z.eqb_spec (fe_degree p) 2); [reflexivity |].
    destruct (Z.eqb_spec (fe_degree p) 3); [reflexivity |].
    destruct (Z.eqb_spec (fe_degree p) 4); [reflexivity |].
    destruct (Z.eqb_spec (fe_degree p) 5); [reflexivity | lia]. }
  rewrite H1, H2. cbn [andb].
  destruct Hg as [Hg | [Hg | Hg]].
  - rewrite Hg. reflexivity.
  - rewrite (proj2 (Z.ltb_lt 1 d) Hg). apply orb_true_r.
  - lia.
Qed.

(** A run with the stability analysis off, at its end. *)
Lemma ordinary_run_state (d : Z) (p : Parameters) (s : Problem) :
  cfl_stability_analysis p = false ->
  run E (LinearizedEulerProblem E d p) = Ok s ->
  first_error_val s = (-1.0)%float /\
  first_mangnitude_val s = indeterminate E /\
  count is_set_time (log s) = 0 /\
  count is_first_error_write (log s) = 0 /\
  (last_error_val s <? 0.0)%float = false.
Proof.
  intros Hflag Hrun.
  destruct (run_inv d p s Hrun) as (s0 & H0 & Hloop & Hi & Hk & Hg).
  destruct (initialize_state d p Hi Hk Hg)
    as (s0' & H0' & P0 & _ & F0 & M0 & _ & _ & _ & _ & _ & N0 & _).
  rewrite H0 in H0'. injection H0' as <-.
  destruct (loop_event_counts _ N0) as (C1 & _ & _ & C4).
  destruct (output_results_cases s0) as (Hlast & (P1 & _) & _ & _ & Hoff & _).
  rewrite P0 in Hoff. destruct (Hoff Hflag) as (A1 & A2 & _ & Lo). clear Hoff.
  destruct (time_loop_analysis_off _ _ _ _ (eq_trans (f_equal cfl_stability_analysis
                                                       (eq_trans P1 P0)) Hflag) Hloop)
    as (B1 & B2 & l & L & D1 & D2).
  split; [congruence |]. split; [congruence |].
  split; [rewrite L, Lo, !count_app, C4, D1; reflexivity |].
  split; [rewrite L, Lo, !count_app, C1, D2; reflexivity |].
  apply (time_loop_last_error _ _ _ _ (eq_trans (f_equal (fun x => (x <? 0.0)%float) Hlast)
                                         (solution_norm_rho_not_negative s0)) Hloop).
Qed.

(** The last element of a list is one of its elements. *)
Lemma last_of_candidates (l : list double) (d : double) :
  l = [] /\ last l d = d \/ l <> [] /\ In (last l d) l.
Proof.
  induction l as [| a l IH]; [left; split; reflexivity | right].
  split; [discriminate |].
  destruct l as [| b l]; [left; reflexivity |].
  destruct IH as [[H _] | [_ H]]; [discriminate H |].
  right. exact H.
Qed.

Lemma stable_candidates_tested (sims : list (Parameters * bool)) (c : double) :
  In c (stable_candidates sims) ->
  In c (map (fun sim => cfl_number (fst sim)) sims).
Proof.
  unfold stable_candidates. intros H. apply in_map_iff in H.
  destruct H as (x & <- & Hx). apply filter_In in Hx.
  apply (in_map (fun sim => cfl_number (fst sim))). exact (proj1 Hx).
Qed.

Lemma instable_candidates_tested (sims : list (Parameters * bool)) (c : double) :
  In c (instable_candidates sims) ->
  In c (map (fun sim => cfl_number (fst sim)) sims).
Proof.
  unfold instable_candidates. intros H. apply in_map_iff in H.
  destruct H as (x & <- & Hx). apply filter_In in Hx.
  apply (in_map (fun sim => cfl_number (fst sim))). exact (proj1 Hx).
Qed.

(* ================================================================= *)
(** ** The stability record and the reference error in a run *)



(* ================================================================= *)
(** ** The search and its report *)





(* ================================================================= *)
(** ** More on runs that return *)





End DriverFacts.

(* ================================================================= *)
(** ** main *)

Section MainFacts.

Context (E : External).
Context (read_parameters : string -> option Parameters).
Context (this_mpi_process : nat).

(** X17.  A parameter file with a dimension other than 2 and 3 makes [main]
    return 1: it raises [ExcMessage] with the text [Invalid dimension]
    followed by the number, runs nothing and does not echo the parameters. *)
Theorem main_rejects_other_dimensions (argv : list string) (p : Parameters) :
  read_parameters (paramfile argv) = Some p ->
  dimension p <> 2%Z ->
  dimension p <> 3%Z ->
  main E read_parameters this_mpi_process argv
  = Some (mkExit 1 None None
      (Some (Caught_ExcMessage ("Invalid dimension " ++ to_string (dimension p))))).
Proof.
  intros Hr H2 H3. unfold main, try_block. rewrite Hr.
  destruct (Z.eqb_spec (dimension p) 2); [contradiction |].
  destruct (Z.eqb_spec (dimension p) 3); [contradiction |].
  reflexivity.
Qed.



End MainFacts.

(* ================================================================= *)
(** ** The files of an output evaluation *)

Section OutputFileFacts.

Context (int_to_string : Z -> nat -> string).
Context (Name : string).
Context (n_mpi_processes : nat).

(** X21.  With more than one process, process 0 (and no other) writes a
    master record; it lists as many files as there are processes, and its
    entry for a process, put into the directory [output/], is the name of
    the file that this process writes.  With a single process no record is
    written and the file name carries no [_Proc] part. *)
Theorem master_record_lists_the_files_written (p : Parameters) (step : Z) :
  (1 < n_mpi_processes ->
   (forall rank, rank <> 0 ->
      pvtu_record int_to_string Name n_mpi_processes p step rank = None) /\
   exists files,
     pvtu_record int_to_string Name n_mpi_processes p step 0
     = Some (("output/" ++ filename_pressure int_to_string Name p step
              ++ ".pvtu")%string, files) /\
     List.length files = n_mpi_processes /\
     forall rank, rank < n_mpi_processes ->
     exists entry,
       nth_error files rank = Some entry /\
       vtu_filename int_to_string Name n_mpi_processes p step rank
       = ("output/" ++ entry)%string) /\
  (n_mpi_processes <= 1 ->
   forall rank,
     pvtu_record int_to_string Name n_mpi_processes p step rank = None /\
     vtu_filename int_to_string Name n_mpi_processes p step rank
     = ("output/" ++ filename_pressure int_to_string Name p step ++ ".vtu")%string).
Proof.
  split.
  - intros Hn. unfold pvtu_record, vtu_filename.
    rewrite (proj2 (Nat.ltb_lt 1 n_mpi_processes) Hn). cbn [andb].
    split.
    + intros rank Hr. destruct (Nat.eqb_spec rank 0); [contradiction | reflexivity].
    + cbn [Nat.eqb]. eexists. split; [reflexivity |].
      split; [rewrite length_map, length_seq; reflexivity |].
      intros rank Hr. eexists. split.
      * rewrite nth_error_map, nth_error_seq.
        rewrite (proj2 (Nat.ltb_lt rank n_mpi_processes) Hr). reflexivity.
      * cbn [Nat.add]. rewrite !Text.append_assoc. reflexivity.
  - intros Hn rank. unfold pvtu_record, vtu_filename.
    rewrite (proj2 (Nat.ltb_ge 1 n_mpi_processes) Hn). split; reflexivity.
Qed.

(** X22.  With more than one process, no two processes write the same file:
    the names that two different processes give to [write_vtu] for the same
    output step differ. *)
Theorem processes_write_distinct_files (p : Parameters) (step : Z) (i j : nat) :
  1 < n_mpi_processes ->
  i <> j ->
  vtu_filename int_to_string Name n_mpi_processes p step i
  <> vtu_filename int_to_string Name n_mpi_processes p step j.
Proof.
  intros Hn Hij. unfold vtu_filename.
  rewrite (proj2 (Nat.ltb_lt 1 n_mpi_processes) Hn). intros H.
  apply Text.append_cancel_l in H. apply Text.append_cancel_l in H.
  apply Text.append_cancel_r in H. apply Text.append_cancel_l in H.
  apply Text.to_string_inj in H. apply Nat2Z.inj in H. exact (Hij H).
Qed.

End OutputFileFacts.

(* ================================================================= *)
(** ** The driver on the small instance *)

(** The search on the small instance, degree 2, started at 0.9: the twelve
    candidates with their verdicts, and the candidate left in the caller's
    object, which is none of them. *)
Example toy_search :
  match run_cfl_stability_analysis Toy.ext (Toy.params 0.9%float true) with
  | Ok r =>
    map (fun sim => (cfl_number (fst sim), snd sim)) (simulations r)
    = [ (0.9, false); (0.8, false); (0.70000000000000007, false);
        (0.60000000000000009, false); (0.50000000000000011, true);
        (0.55000000000000004, false); (0.52500000000000013, true);
        (0.53750000000000009, false); (0.53125000000000011, false);
        (0.52812500000000018, false); (0.52656250000000016, true);
        (0.52734375000000022, false) ]%float /\
    cfl_number (parameters_in r) = 0.52695312500000013%float /\
    cfl_closest_stable r = 0.52656250000000016%float /\
    cfl_closest_instable r = 0.52734375000000022%float
  | Throw _ => False
  | Undefined => False
  end.
Proof. vm_compute. repeat split. Qed.

(** The numbers of its final report: the third repeats the first. *)
Example toy_report :
  match run_cfl_stability_analysis Toy.ext (Toy.params 0.9%float true) with
  | Ok r =>
    filter is_double (skipn 120 (pcout r))
    = [ out_double 1.4915533665653744; out_double 1.4893436578741663;
        out_double 1.4915533665653744 ]%float
  | Throw _ => False
  | Undefined => False
  end.
Proof. vm_compute. reflexivity. Qed.

Lemma stability_verdict_witness :
  cfl_stability_analysis (Toy.params 0.3%float true) = true /\
  let s1 := observe Toy.ext 1%float 10%float
              (LinearizedEulerProblem Toy.ext 2 (Toy.params 0.3%float true)) in
  let s2 := observe Toy.ext 2%float 7%float s1 in
  let s3 := observe Toy.ext 150%float 8%float s2 in
  cfl_stable Toy.ext s2 = true /\ cfl_stable Toy.ext s3 = false.
Proof.
  split; [reflexivity |].
  destruct (stability_verdict Toy.ext 2 (Toy.params 0.3%float true) 7%float 8%float
              eq_refl) as (_ & _ & _ & _ & H2 & H3).
  split; [exact H2 | exact H3].
Defined.

Lemma divergence_forces_final_time_witness :
  cfl_stable Toy.ext (output_results Toy.ext Toy.diverging) = false /\
  tc_time (time_control (output_results Toy.ext Toy.diverging)) = 2.0%float /\
  time_loop Toy.ext expleuler 40 (output_results Toy.ext Toy.diverging)
  = Ok (output_results Toy.ext Toy.diverging).
Proof.
  assert (Hdiv : cfl_stable Toy.ext (output_results Toy.ext Toy.diverging) = false)
    by (vm_compute; reflexivity).
  split; [exact Hdiv |].
  destruct (divergence_forces_final_time Toy.ext Toy.diverging expleuler 40
              eq_refl Hdiv eq_refl eq_refl) as (Ht & _ & _ & Hl).
  split; [exact Ht | exact Hl].
Defined.




Lemma coarsen_flag_at_min_level_witness :
  let cell := mkCell 2 false true true 0 1.0%float in
  In cell (flagged_cells Toy.ext Toy.calm) /\
  level cell = n_refinements (parameters Toy.calm) /\
  coarsen_flag_set cell = true.
Proof.
  cbv zeta.
  assert (Hin : In (mkCell 2 false true true 0 1.0%float)
                  (flagged_cells Toy.ext Toy.calm))
    by (vm_compute; left; reflexivity).
  split; [exact Hin |]. split; [reflexivity |].
  exact (coarsen_flag_at_min_level Toy.ext Toy.calm _ Hin eq_refl eq_refl eq_refl).
Defined.

Lemma adapt_mesh_order_witness :
  (1 <? dim Toy.calm)%Z = true /\
  exists s', adapt_mesh Toy.ext Toy.calm = Ok s' /\
    tc_time_step (time_control s')
    = compute_time_step_size Toy.ext (triangulation s') (parameters s').
Proof.
  split; [reflexivity |].
  destruct (adapt_mesh_order Toy.ext Toy.calm (or_intror eq_refl))
    as (s' & Hs' & _ & _ & _ & H & _).
  exists s'. split; [exact Hs' | exact H].
Defined.

(* ================================================================= *)
(** ** The further properties on the small instance *)


Lemma adapt_mesh_leaves_clock_and_record_witness :
  exists s', adapt_mesh Toy.ext Toy.calm = Ok s' /\
    tc_time (time_control s') = tc_time (time_control Toy.calm) /\
    tmp_solutions s' = initialize_dof_vector Toy.ext (triangulation s').
Proof.
  destruct (adapt_mesh_returns Toy.ext Toy.calm (or_intror eq_refl)) as [s' H].
  exists s'. split; [exact H |].
  destruct (adapt_mesh_leaves_clock_and_record Toy.ext Toy.calm s' H)
    as (_ & _ & T & _ & _ & _ & _ & _ & _ & _ & V & _).
  split; [exact T | exact V].
Defined.

Lemma nan_error_counts_as_stable_witness :
  is_nan (solution_norm_rho Toy.ext Toy.blown_up) = true /\
  cfl_stable Toy.ext (output_results Toy.ext Toy.blown_up) = true /\
  time_control (output_results Toy.ext Toy.blown_up) = time_control Toy.blown_up.
Proof.
  split; [reflexivity |].
  destruct (nan_error_counts_as_stable Toy.ext Toy.blown_up eq_refl) as (H & T & _).
  split; [exact H | exact T].
Defined.




Lemma search_outside_two_and_three_dimensions_witness :
  dimension Toy.line <> 2%Z /\ dimension Toy.line <> 3%Z /\
  exists r,
    run_cfl_stability_analysis Toy.ext Toy.line = Ok r /\
    simulations r = [] /\ cfl_closest_stable r = (-0.1)%float.
Proof.
  assert (H2 : dimension Toy.line <> 2%Z) by (intros H; discriminate H).
  assert (H3 : dimension Toy.line <> 3%Z) by (intros H; discriminate H).
  split; [exact H2 |]. split; [exact H3 |].
  destruct (search_outside_two_and_three_dimensions Toy.ext Toy.line H2 H3)
    as (r & Hr & S & B & _).
  exists r. split; [exact Hr |]. split; [exact S | exact B].
Defined.


Lemma main_rejects_other_dimensions_witness :
  Toy.read_parameters (paramfile ["exwave"; "line.prm"]%string) = Some Toy.line /\
  dimension Toy.line <> 2%Z /\ dimension Toy.line <> 3%Z /\
  main Toy.ext Toy.read_parameters 0 ["exwave"; "line.prm"]%string
  = Some (mkExit 1 None None (Some (Caught_ExcMessage "Invalid dimension 1"))).
Proof.
  assert (H2 : dimension Toy.line <> 2%Z) by (intros H; discriminate H).
  assert (H3 : dimension Toy.line <> 3%Z) by (intros H; discriminate H).
  split; [reflexivity |]. split; [exact H2 |]. split; [exact H3 |].
  exact (main_rejects_other_dimensions Toy.ext Toy.read_parameters 0
           ["exwave"; "line.prm"]%string Toy.line eq_refl H2 H3).
Defined.


Lemma master_record_lists_the_files_written_witness :
  exists files,
    pvtu_record Toy.int_to_string "LinearizedEuler" 3 (Toy.params 0.3%float true) 7 0
    = Some ("output/sol_deg2_LinearizedEuler_case1_ref2_step007.pvtu"%string, files) /\
    nth_error files 2
    = Some "sol_deg2_LinearizedEuler_case1_ref2_step007_Proc2.vtu"%string.
Proof.
  destruct (master_record_lists_the_files_written Toy.int_to_string
              "LinearizedEuler" 3 (Toy.params 0.3%float true) 7)
    as (Hmany & _).
  destruct (Hmany (le_n_S 1 2 (le_S 1 1 (le_n 1)))) as (_ & files & Hrec & _).
  exists files. split; [exact Hrec |].
  injection Hrec as <-. reflexivity.
Defined.

Lemma processes_write_distinct_files_witness :
  1 < 3 /\ 0 <> 2 /\
  vtu_filename Toy.int_to_string "LinearizedEuler" 3 (Toy.params 0.3%float true) 7 0
  <> vtu_filename Toy.int_to_string "LinearizedEuler" 3 (Toy.params 0.3%float true) 7 2.
Proof.
  assert (Hn : 1 < 3) by lia.
  assert (Hd : 0 <> 2) by (intros H; discriminate H).
  split; [exact Hn |]. split; [exact Hd |].
  exact (processes_write_distinct_files Toy.int_to_string "LinearizedEuler" 3
           (Toy.params 0.3%float true) 7 0 2 Hn Hd).
Defined.

(* ================================================================= *)
(** ** The search and whole runs on the small instance *)













